(** * The builtin-actors bundle fetcher (package [actors])

    A shallow embedding of [BundleFetcher]: [NewBundleFetcher], [Fetch],
    [fetchURL], [fetch] and [check], over an explicit world made of a flat
    file store, a remote origin, the faults of the file system and the log
    of the GET requests issued. Logging is left out.

    The Go library functions the fetcher calls ([strings.Split],
    [hex.DecodeString], [filepath.Join], [fmt.Sprintf], [bytes.Equal],
    [sha256]) are modelled after their documented behaviour in the modules
    that open the file. The hash function is a parameter of the fetcher and
    of the statements about it; it is instantiated with FIPS 180-4 SHA-256
    where a statement is evaluated on a concrete world.

    Of the miner command, [isController] is embedded: the test that an
    address may act for a miner. *)

From Stdlib Require Import ZArith NArith String Ascii Strings.Byte List DecimalString.
From Stdlib Require DecimalZ DecimalPos.
From stdpp Require Import gmap strings list.
From stdpp Require finite.

Local Open Scope string_scope.
Local Open Scope list_scope.

(** ** Go strings *)

Module GoStrings.

(** [strings.Split(s, sep)] for a one-byte separator: the pieces between
    the occurrences of [sep]. The list is never empty: the empty string
    gives one empty piece. *)
Fixpoint Split (s : string) (sep : ascii) : list string :=
  match s with
  | EmptyString => [EmptyString]
  | String a s' =>
      if Ascii.eqb a sep then EmptyString :: Split s' sep
      else match Split s' sep with
           | [] => [String a EmptyString]
           | t :: ts => String a t :: ts
           end
  end.

(** [strings.Join(elems, sep)]. *)
Fixpoint Join (elems : list string) (sep : string) : string :=
  match elems with
  | [] => EmptyString
  | [e] => e
  | e :: es => e +:+ sep +:+ Join es sep
  end.

(** The byte [c] does not occur in [s]. *)
Fixpoint free_of (c : ascii) (s : string) : bool :=
  match s with
  | EmptyString => true
  | String a s' => negb (Ascii.eqb a c) && free_of c s'
  end.

(** The text before the first occurrence of [sep], all of it when there is
    none. *)
Fixpoint before (sep : ascii) (s : string) : string :=
  match s with
  | EmptyString => EmptyString
  | String a s' => if Ascii.eqb a sep then EmptyString else String a (before sep s')
  end.

(** The last byte of a string, if any. *)
Fixpoint last_byte (s : string) : option ascii :=
  match s with
  | EmptyString => None
  | String a EmptyString => Some a
  | String _ s' => last_byte s'
  end.

(** [fmt.Sprintf("%d", z)]: signed decimal, no padding. *)
Definition fmt_d (z : Z) : string := NilZero.string_of_int (Z.to_int z).

End GoStrings.

(** ** encoding/hex *)

Module Hex.

Inductive error : Type :=
| ErrLength                       (* odd length hex string *)
| InvalidByteError (c : ascii).   (* invalid byte *)

(** The value of a hexadecimal digit, either case. *)
Definition fromHexChar (c : ascii) : option N :=
  let n := N_of_ascii c in
  if (48 <=? n)%N && (n <=? 57)%N then Some (n - 48)%N
  else if (97 <=? n)%N && (n <=? 102)%N then Some (n - 87)%N
  else if (65 <=? n)%N && (n <=? 70)%N then Some (n - 55)%N
  else None.

Definition byte_of_nibbles (a b : N) : byte :=
  match Byte.of_N (a * 16 + b) with
  | Some x => x
  | None => x00
  end.

(** [hex.DecodeString]: pairs of digits, most significant first; the first
    invalid byte is reported, and an odd length after the valid pairs. *)
Fixpoint DecodeString (s : string) : error + list byte :=
  match s with
  | EmptyString => inr []
  | String p EmptyString =>
      match fromHexChar p with
      | None => inl (InvalidByteError p)
      | Some _ => inl ErrLength
      end
  | String p (String q s') =>
      match fromHexChar p with
      | None => inl (InvalidByteError p)
      | Some a =>
          match fromHexChar q with
          | None => inl (InvalidByteError q)
          | Some b =>
              match DecodeString s' with
              | inl e => inl e
              | inr bs => inr (byte_of_nibbles a b :: bs)
              end
          end
      end
  end.

Definition hexdigit (n : N) : ascii :=
  ascii_of_N (if (n <? 10)%N then n + 48 else n + 87)%N.

(** [hex.EncodeToString]: two lowercase digits per byte. *)
Fixpoint EncodeToString (bs : list byte) : string :=
  match bs with
  | [] => EmptyString
  | b :: bs' =>
      let n := Byte.to_N b in
      String (hexdigit (n / 16)) (String (hexdigit (n mod 16)) (EncodeToString bs'))
  end.

End Hex.

(** ** path/filepath (Unix) *)

Module Filepath.

Definition rooted (p : string) : bool :=
  match p with
  | String "/" _ => true
  | _ => false
  end.

(** One path element against the elements kept so far (innermost first):
    empty and [.] elements vanish, [..] removes the element before it,
    is dropped at the root, and is kept at the start of a relative path. *)
Definition clean_step (abs : bool) (kept : list string) (e : string) : list string :=
  if String.eqb e EmptyString || String.eqb e "." then kept
  else if String.eqb e ".." then
    match kept with
    | top :: below => if String.eqb top ".." then e :: kept else below
    | [] => if abs then [] else [e]
    end
  else e :: kept.

Definition clean_elems (abs : bool) (es : list string) : list string :=
  rev (fold_left (clean_step abs) es []).

(** [filepath.Clean]: the shortest equivalent path by lexical processing;
    ends in a slash only when it is the root, and is [.] when empty. *)
Definition Clean (p : string) : string :=
  if String.eqb p EmptyString then "."
  else
    let body := GoStrings.Join (clean_elems (rooted p) (GoStrings.Split p "/")) "/" in
    if rooted p then "/" +:+ body
    else if String.eqb body EmptyString then "." else body.

(** A plain path element: no slash, and none of the empty, [.] and [..]
    elements. *)
Definition is_elem (e : string) : bool :=
  GoStrings.free_of "/" e
  && negb (String.eqb e EmptyString) && negb (String.eqb e ".") && negb (String.eqb e "..").

(** A directory path in clean form, other than [.] and the root. *)
Definition clean_dir (p : string) : Prop :=
  Clean p = p /\ p <> "." /\ p <> "/".

(** The shape of the elements [clean_step] keeps (innermost first): no
    slash, no empty element and no [.]; [..] elements only at the start of
    a relative path. *)
Definition only_dotdot (kept : list string) : bool :=
  forallb (String.eqb "..") kept.

Fixpoint kept_ok (abs : bool) (kept : list string) : bool :=
  match kept with
  | [] => true
  | e :: below =>
      GoStrings.free_of "/" e
      && (if String.eqb e ".." then negb abs && only_dotdot below
          else negb (String.eqb e EmptyString) && negb (String.eqb e ".") && kept_ok abs below)
  end.

(** [filepath.Join]: leading empty elements are skipped, the rest is
    joined with slashes and cleaned; all empty gives the empty string. *)
Fixpoint Join (elem : list string) : string :=
  match elem with
  | [] => EmptyString
  | e :: es =>
      if String.eqb e EmptyString then Join es
      else Clean (GoStrings.Join elem "/")
  end.

Fixpoint upto_last_slash (p : string) : string :=
  match p with
  | EmptyString => EmptyString
  | String a p' =>
      if GoStrings.free_of "/" p then EmptyString else String a (upto_last_slash p')
  end.

(** [filepath.Dir]: all but the last element of the path, cleaned. *)
Definition Dir (p : string) : string := Clean (upto_last_slash p).

End Filepath.

(** ** crypto/sha256 (FIPS 180-4) *)

Module Sha256.

Local Open Scope Z_scope.

Definition add32 (x y : Z) : Z := (x + y) mod 2 ^ 32.

Definition rotr (n x : Z) : Z :=
  Z.lor (Z.shiftr x n) (Z.shiftl x (32 - n) mod 2 ^ 32).

Definition Ch (x y z : Z) : Z :=
  Z.lxor (Z.land x y) (Z.land (Z.lxor x 0xffffffff) z).
Definition Maj (x y z : Z) : Z :=
  Z.lxor (Z.lxor (Z.land x y) (Z.land x z)) (Z.land y z).
Definition bsig0 (x : Z) : Z := Z.lxor (Z.lxor (rotr 2 x) (rotr 13 x)) (rotr 22 x).
Definition bsig1 (x : Z) : Z := Z.lxor (Z.lxor (rotr 6 x) (rotr 11 x)) (rotr 25 x).
Definition ssig0 (x : Z) : Z := Z.lxor (Z.lxor (rotr 7 x) (rotr 18 x)) (Z.shiftr x 3).
Definition ssig1 (x : Z) : Z := Z.lxor (Z.lxor (rotr 17 x) (rotr 19 x)) (Z.shiftr x 10).

(** The first [n] prime numbers, by trial division. *)
Definition is_prime (p : Z) : bool :=
  forallb (fun d => negb (p mod d =? 0)) (map Z.of_nat (seq 2 (Z.to_nat p - 2))).

Definition primes (n : nat) : list Z :=
  firstn n (filter is_prime (map Z.of_nat (seq 2 400))).

(** The integer cube root below 2^[bits], one bit at a time. *)
Fixpoint cbrt_bits (bits : nat) (n r : Z) : Z :=
  match bits with
  | O => r
  | S b =>
      let c := r + 2 ^ Z.of_nat b in
      cbrt_bits b n (if c * c * c <=? n then c else r)
  end.

(** The first 32 bits of the fractional part of a cube root, of a square
    root. *)
Definition frac_cbrt (p : Z) : Z := cbrt_bits 36 (p * 2 ^ 96) 0 mod 2 ^ 32.
Definition frac_sqrt (p : Z) : Z := Z.sqrt (p * 2 ^ 64) mod 2 ^ 32.

(** The round constants: the cube roots of the first 64 primes. *)
Definition K : list Z := Eval vm_compute in map frac_cbrt (primes 64).

(** The eight working words. *)
Record digest : Type := Digest {
  h0 : Z; h1 : Z; h2 : Z; h3 : Z; h4 : Z; h5 : Z; h6 : Z; h7 : Z
}.

(** The initial value: the square roots of the first 8 primes. *)
Definition init : digest :=
  Eval vm_compute in
    match map frac_sqrt (primes 8) with
    | [a; b; c; d; e; f; g; h] => Digest a b c d e f g h
    | _ => Digest 0 0 0 0 0 0 0 0
    end.

(** One round: the compression step on word [wt] with constant [kt]. *)
Definition round (s : digest) (kt wt : Z) : digest :=
  let t1 := add32 (add32 (add32 (add32 (h7 s) (bsig1 (h4 s))) (Ch (h4 s) (h5 s) (h6 s))) kt) wt in
  let t2 := add32 (bsig0 (h0 s)) (Maj (h0 s) (h1 s) (h2 s)) in
  Digest (add32 t1 t2) (h0 s) (h1 s) (h2 s) (add32 (h3 s) t1) (h4 s) (h5 s) (h6 s).

(** The message schedule as a window of sixteen words [W_t .. W_t+15]:
    the next word is ssig1(W_t+14) + W_t+9 + ssig0(W_t+1) + W_t. *)
Definition slide (win : list Z) : list Z :=
  let at_ i := nth i win 0 in
  tl win ++ [add32 (add32 (add32 (ssig1 (at_ 14%nat)) (at_ 9%nat)) (ssig0 (at_ 1%nat))) (at_ 0%nat)].

Fixpoint rounds (ks : list Z) (win : list Z) (s : digest) : digest :=
  match ks with
  | [] => s
  | kt :: ks' => rounds ks' (slide win) (round s kt (nth 0 win 0))
  end.

Definition block (s : digest) (m : list Z) : digest :=
  let r := rounds K m s in
  Digest (add32 (h0 s) (h0 r)) (add32 (h1 s) (h1 r)) (add32 (h2 s) (h2 r))
         (add32 (h3 s) (h3 r)) (add32 (h4 s) (h4 r)) (add32 (h5 s) (h5 r))
         (add32 (h6 s) (h6 r)) (add32 (h7 s) (h7 r)).

(** Big-endian bytes of a word and back. *)
Definition be_bytes (n : nat) (x : Z) : list Z :=
  map (fun i => Z.shiftr x (8 * Z.of_nat i) mod 256) (rev (seq 0 n)).

Fixpoint be_words (bs : list Z) : list Z :=
  match bs with
  | a :: b :: c :: d :: bs' => (((a * 256 + b) * 256 + c) * 256 + d) :: be_words bs'
  | _ => []
  end.

(** The message, a one bit, zeros up to 56 modulo 64, and the length in
    bits on eight bytes. *)
Definition pad (msg : list Z) : list Z :=
  let len := Z.of_nat (length msg) in
  let zeros := Z.to_nat ((55 - len) mod 64) in
  msg ++ [0x80] ++ repeat 0 zeros ++ be_bytes 8 ((len * 8) mod 2 ^ 64).

Fixpoint blocks (fuel : nat) (ws : list Z) (s : digest) : digest :=
  match fuel with
  | O => s
  | S fuel' =>
      match ws with
      | [] => s
      | _ => blocks fuel' (skipn 16 ws) (block s (firstn 16 ws))
      end
  end.

Definition z_of_byte (b : byte) : Z := Z.of_N (Byte.to_N b).
Definition byte_of_z (z : Z) : byte :=
  match Byte.of_N (Z.to_N z) with
  | Some b => b
  | None => x00
  end.

Definition words_of (s : digest) : list Z :=
  [h0 s; h1 s; h2 s; h3 s; h4 s; h5 s; h6 s; h7 s].

(** [sha256.Sum256]: the digest of a whole byte sequence, 32 bytes. *)
Definition Sum256 (msg : list byte) : list byte :=
  let ws := be_words (pad (map z_of_byte msg)) in
  map byte_of_z (flat_map (be_bytes 4) (words_of (blocks (length ws) ws init))).

Definition Size : nat := 32.

(** The digest of a text, in hexadecimal. *)
Definition hex (s : string) : string :=
  Hex.EncodeToString (Sum256 (list_byte_of_string s)).

End Sha256.

(** ** bytes *)

Module Bytes.

(** [bytes.Equal]: same length and the same bytes. *)
Fixpoint Equal (a b : list byte) : bool :=
  match a, b with
  | [], [] => true
  | x :: a', y :: b' => Byte.eqb x y && Equal a' b'
  | _, _ => false
  end.

End Bytes.

(** ** The world: files, origin, faults *)

(** A regular file. [open_err] says the file cannot be opened for reading
    (its mode bits, kept when the file is truncated in place); [read_err]
    says reading it fails mid-stream (an I/O error on the stored data, gone
    once the data is rewritten). *)
Record file : Type := File {
  data : list byte;
  open_err : bool;
  read_err : bool
}.

(** What [http.Get] gives for a URL: a transport error, or a response with
    its status and the bytes of the body that arrive; [broken] says the body
    stream ends in an error after those bytes. *)
Inductive response : Type :=
| GetErr
| Resp (status : Z) (body : list byte) (broken : bool).

(** The directory tree is left to the environment: [mkdir_err] tells the
    paths where [os.MkdirAll] fails, [create_err] those where opening a file
    for writing fails. [requests] logs the URLs of the GET requests. *)
Record world : Type := World {
  files : gmap string file;
  mkdir_err : string -> bool;
  create_err : string -> bool;
  origin : string -> response;
  requests : list string
}.

(** The errors of the package, one constructor per [xerrors.Errorf] site.
    A wrapped cause is kept when it is an error of this package or of
    [encoding/hex]; the causes that come from the operating system and from
    the transport are left out. *)
Inductive error : Type :=
| ErrMkdir (path : string)                      (* error making bundle directory %s: %w *)
| ErrFetchingBundle (cause : error)             (* error fetching bundle: %w *)
| ErrCheckingBundle (cause : error)             (* error checking bundle: %s *)
| ErrGet (url : string)                         (* error fetching %s: %w *)
| ErrStatus (url : string) (code : Z)           (* error fetching %s: http response status is %d *)
| ErrOpenWrite (path : string)                  (* error opening %s for writing: %w *)
| ErrWrite (path : string)                      (* error writing %s: %w *)
| ErrOpen (path : string)                       (* error opening %s: %w *)
| ErrRead (path : string)                       (* error reading %s: %w *)
| ErrDecode (path : string) (cause : Hex.error) (* error decoding digest from %s: %w *)
| ErrDigest (path : string)                     (* error computing digest for %s: %w *)
| ErrHashMismatch.                              (* hash mismatch *)

(** State and error: a computation returns an error or a value, and the
    world it leaves. *)
Definition M (A : Type) : Type := world -> (error + A) * world.

Definition ret {A : Type} (a : A) : M A := fun w => (inr a, w).

Definition fail {A : Type} (e : error) : M A := fun w => (inl e, w).

Definition bind {A B : Type} (c : M A) (k : A -> M B) : M B :=
  fun w =>
    match c w with
    | (inl e, w') => (inl e, w')
    | (inr a, w') => k a w'
    end.

Declare Scope fetch_scope.
Delimit Scope fetch_scope with fetch.
Notation "x <- c ;; k" := (bind c (fun x => k))
  (at level 100, c at next level, right associativity) : fetch_scope.
Notation "c ;;; k" := (bind c (fun _ => k))
  (at level 100, right associativity) : fetch_scope.

(** A system call that fails is reported with the error of its call site. *)
Definition or_fail {A : Type} (r : option A) (e : error) : M A :=
  match r with
  | Some a => ret a
  | None => fail e
  end.

(** The world with another file store, and with one more request logged. *)
Definition with_files (fs : gmap string file) (w : world) : world :=
  World fs (mkdir_err w) (create_err w) (origin w) (requests w).

Definition with_request (url : string) (w : world) : world :=
  World (files w) (mkdir_err w) (create_err w) (origin w) (requests w ++ [url]).

Module OS.

(** [os.MkdirAll]: its outcome is the environment's. The directories are
    not part of the world, which holds the files by their paths. *)
Definition MkdirAll (p : string) (w : world) : option unit :=
  if mkdir_err w p then None else Some tt.

(** [os.Stat] succeeds on the files that exist. *)
Definition Stat (p : string) (w : world) : option unit :=
  match files w !! p with
  | Some _ => Some tt
  | None => None
  end.

(** [os.Open], for reading. *)
Definition Open (p : string) (w : world) : option file :=
  match files w !! p with
  | Some f => if open_err f then None else Some f
  | None => None
  end.

(** [io.ReadAll], and [io.Copy] into a hash, out of an open file: all of
    its bytes, or a read error. *)
Definition ReadAll (f : file) : option (list byte) :=
  if read_err f then None else Some (data f).

(** [os.OpenFile(p, O_WRONLY|O_CREATE|O_TRUNC, 0644)]: the file is created
    or emptied. *)
Definition OpenFile_trunc (p : string) (w : world) : option world :=
  if create_err w p then None
  else
    let mode := match files w !! p with
                | Some f => open_err f
                | None => false
                end in
    Some (with_files (<[p := File [] mode false]> (files w)) w).

(** The bytes written to an open file by [io.Copy]. An error of the copy is
    the one the response carries; the local write has no fault of its own
    in this world. *)
Definition Write (p : string) (bs : list byte) (w : world) : world :=
  match files w !! p with
  | Some f => with_files (<[p := File (data f ++ bs) (open_err f) (read_err f)]> (files w)) w
  | None => w
  end.

(** [http.Get]: the request is logged and the origin answers. *)
Definition Get (url : string) (w : world) : response * world :=
  (origin w url, with_request url w).

End OS.

(** ** The fetcher *)

Definition StatusOK : Z := 200.

Definition releases : string :=
  "https://github.com/filecoin-project/builtin-actors/releases/download/".

Record BundleFetcher : Type := { path : string }.

(** [Version] is an integer type of the package; [Fetch] only prints it
    with [%d]. It is taken as [Z]. *)

(** The names and places [Fetch] derives from its arguments. *)
Definition bundleName (netw : string) : string := "builtin-actors-" +:+ netw.
Definition bundleFile (netw : string) : string := bundleName netw +:+ ".car".
Definition bundleHash (netw : string) : string := bundleName netw +:+ ".sha256".

Definition bundleBasePath (b : BundleFetcher) (version : Z) (release : string) : string :=
  Filepath.Join [path b; "v" +:+ GoStrings.fmt_d version; release].

Definition bundleFilePath (b : BundleFetcher) (version : Z) (release netw : string) : string :=
  Filepath.Join [bundleBasePath b version release; bundleFile netw].

Definition bundleHashPath (b : BundleFetcher) (version : Z) (release netw : string) : string :=
  Filepath.Join [bundleBasePath b version release; bundleHash netw].

(** The URL of a file of a release. *)
Definition bundleUrl (release name : string) : string :=
  releases +:+ release +:+ "/" +:+ name.

(** Lines 126 to 128 of [check]: the text before the first space of the
    digest file, decoded as hexadecimal. *)
Definition parseDigest (bs : list byte) : Hex.error + list byte :=
  let parts := GoStrings.Split (string_of_list_byte bs) " " in
  let hashHex := hd EmptyString parts in
  Hex.DecodeString hashHex.

Section Fetcher.

(** The SHA-256 digest of a byte sequence ([sha256.New], [io.Copy],
    [Sum(nil)]). *)
Variable Sum256 : list byte -> list byte.

Local Open Scope fetch_scope.

Definition NewBundleFetcher (basepath : string) : M BundleFetcher :=
  let path := Filepath.Join [basepath; "builtin-actors"] in
  fun w =>
    (_ <- or_fail (OS.MkdirAll path w) (ErrMkdir path) ;;
     ret {| path := path |}) w.

Definition fetchURL (url path : string) : M unit :=
  fun w =>
    let (resp, w1) := OS.Get url w in
    match resp with
    | GetErr => (inl (ErrGet url), w1)
    | Resp status body broken =>
        if negb (status =? StatusOK)%Z then (inl (ErrStatus url status), w1)
        else
          match OS.OpenFile_trunc path w1 with
          | None => (inl (ErrOpenWrite path), w1)
          | Some w2 =>
              let w3 := OS.Write path body w2 in
              if broken then (inl (ErrWrite path), w3) else (inr tt, w3)
          end
    end.

Definition fetch (release bundleBasePath bundleFile bundleHash : string) : M unit :=
  let bundleHashUrl := bundleUrl release bundleHash in
  let bundleHashPath := Filepath.Join [bundleBasePath; bundleHash] in
  fetchURL bundleHashUrl bundleHashPath ;;;
  let bundleFileUrl := bundleUrl release bundleFile in
  let bundleFilePath := Filepath.Join [bundleBasePath; bundleFile] in
  fetchURL bundleFileUrl bundleFilePath ;;;
  ret tt.

Definition check (bundleBasePath bundleFile bundleHash : string) : M unit :=
  let bundleHashPath := Filepath.Join [bundleBasePath; bundleHash] in
  fun w =>
    (f <- or_fail (OS.Open bundleHashPath w) (ErrOpen bundleHashPath) ;;
     bs <- or_fail (OS.ReadAll f) (ErrRead bundleHashPath) ;;
     match parseDigest bs with
     | inl err => fail (ErrDecode bundleHashPath err)
     | inr expectedDigest =>
         let bundleFilePath := Filepath.Join [bundleBasePath; bundleFile] in
         f <- or_fail (OS.Open bundleFilePath w) (ErrOpen bundleFilePath) ;;
         content <- or_fail (OS.ReadAll f) (ErrDigest bundleFilePath) ;;
         let digest := Sum256 content in
         if negb (Bytes.Equal digest expectedDigest) then fail ErrHashMismatch
         else ret tt
     end) w.

(** Lines 55 to 66 of [Fetch], which it reaches when the artifact is absent
    and when the check of the artifact in place fails: retrieve, check
    again, return the path. *)
Definition refetch (release bundleBasePath bundleFile bundleHash : string) : M string :=
  fun w =>
    match fetch release bundleBasePath bundleFile bundleHash w with
    | (inl err, w1) => (inl (ErrFetchingBundle err), w1)
    | (inr _, w1) =>
        match check bundleBasePath bundleFile bundleHash w1 with
        | (inl err, w2) => (inl (ErrCheckingBundle err), w2)
        | (inr _, w2) => (inr (Filepath.Join [bundleBasePath; bundleFile]), w2)
        end
    end.

Definition Fetch (b : BundleFetcher) (version : Z) (release netw : string) : M string :=
  let bundleFile := bundleFile netw in
  let bundleHash := bundleHash netw in
  let bundleBasePath := bundleBasePath b version release in
  fun w =>
    match OS.MkdirAll bundleBasePath w with
    | None => (inl (ErrMkdir bundleBasePath), w)
    | Some _ =>
        let bundleFilePath := Filepath.Join [bundleBasePath; bundleFile] in
        match OS.Stat bundleFilePath w with
        | Some _ =>
            match check bundleBasePath bundleFile bundleHash w with
            | (inr _, w1) => (inr bundleFilePath, w1)
            | (inl _, w1) => refetch release bundleBasePath bundleFile bundleHash w1
            end
        | None => refetch release bundleBasePath bundleFile bundleHash w
        end
    end.

End Fetcher.

(** What a reader gets from the file at a path: its bytes when it opens and
    reads without error. *)
Definition contents (w : world) (p : string) : option (list byte) :=
  match OS.Open p w with
  | Some f => OS.ReadAll f
  | None => None
  end.

(** [Fetch] finds the artifact at its path and [check] accepts it. *)
Definition cache_hit (Sum256 : list byte -> list byte) (b : BundleFetcher) (version : Z)
    (release netw : string) (w : world) : bool :=
  match OS.Stat (bundleFilePath b version release netw) w with
  | Some _ =>
      match fst (check Sum256 (bundleBasePath b version release)
                       (bundleFile netw) (bundleHash netw) w) with
      | inr _ => true
      | inl _ => false
      end
  | None => false
  end.

(** The file a download leaves at a path: the body, readable unless the
    file it replaces could not be opened. *)
Definition downloaded (w : world) (p : string) (body : list byte) : file :=
  File body (match files w !! p with Some f => open_err f | None => false end) false.

(** The file at a path, if there is one, can be opened for reading. *)
Definition openable (w : world) (p : string) : bool :=
  match files w !! p with
  | Some f => negb (open_err f)
  | None => true
  end.

(** ** Upper case, to state that the digest may be written in either case *)

Module Text.

(** An ASCII lower case letter becomes the upper case one. *)
Definition upper_byte (c : ascii) : ascii :=
  let n := N_of_ascii c in
  if (97 <=? n)%N && (n <=? 122)%N then ascii_of_N (n - 32) else c.

(** [strings.ToUpper] on ASCII text. *)
Fixpoint ToUpper (s : string) : string :=
  match s with
  | EmptyString => EmptyString
  | String a s' => String (upper_byte a) (ToUpper s')
  end.

End Text.

(** ** The miner command: who may send for a miner *)

Module Miner.

Section Controller.

(** [address.Address] is compared with [==]; of [api.MinerInfo] only the
    three fields [isController] reads are kept. *)
Context {Address : Type} `{EqDecision Address}.

Record MinerInfo : Type := {
  Owner : Address;
  Worker : Address;
  ControlAddresses : list Address
}.

(** The loop of [isController] over the control addresses. *)
Fixpoint among (addr : Address) (cas : list Address) : bool :=
  match cas with
  | [] => false
  | ca :: rest => if bool_decide (addr = ca) then true else among addr rest
  end.

Definition isController (mi : MinerInfo) (addr : Address) : bool :=
  if bool_decide (addr = Owner mi) || bool_decide (addr = Worker mi) then true
  else among addr (ControlAddresses mi).

End Controller.

End Miner.

(** ** The spec's reading of the digest file *)

Module Spec.

(** White space: space, tab, newline, vertical tab, form feed, return. *)
Definition is_space (c : ascii) : bool :=
  let n := N_of_ascii c in
  (n =? 32)%N || ((9 <=? n)%N && (n <=? 13)%N).

(** The text up to the first white space character. *)
Fixpoint token (s : string) : string :=
  match s with
  | EmptyString => EmptyString
  | String a s' => if is_space a then EmptyString else String a (token s')
  end.

(** The first whitespace-delimited token of a text. *)
Fixpoint first_token (s : string) : string :=
  match s with
  | EmptyString => EmptyString
  | String a s' => if is_space a then first_token s' else token s
  end.

End Spec.

(** ** Worlds to run the fetcher in *)

Module Scenario.

Definition fetcher : BundleFetcher := {| path := "/tmp/cache/builtin-actors" |}.

Definition dir : string := "/tmp/cache/builtin-actors/v8/v8.0.0".
Definition car : string := "/tmp/cache/builtin-actors/v8/v8.0.0/builtin-actors-mainnet.car".
Definition sha : string := "/tmp/cache/builtin-actors/v8/v8.0.0/builtin-actors-mainnet.sha256".
Definition car_calibnet : string :=
  "/tmp/cache/builtin-actors/v8/v8.0.0/builtin-actors-calibrationnet.car".

Definition car_url : string := bundleUrl "v8.0.0" (bundleFile "mainnet").
Definition sha_url : string := bundleUrl "v8.0.0" (bundleHash "mainnet").

Definition abc : list byte := list_byte_of_string "abc".
Definition abd : list byte := list_byte_of_string "abd".
Definition ab : list byte := list_byte_of_string "ab".

Definition newline : string := String "010" EmptyString.

(** A digest file as [sha256sum] writes it: the digest in hexadecimal, two
    spaces, the file name, a newline. *)
Definition digest_file (content : list byte) (name : string) : list byte :=
  list_byte_of_string
    (Hex.EncodeToString (Sha256.Sum256 content) +:+ "  " +:+ name +:+ newline).

(** A digest file that holds the digest and a newline, without a space. *)
Definition bare_digest_file (content : list byte) : list byte :=
  list_byte_of_string (Hex.EncodeToString (Sha256.Sum256 content) +:+ newline).

Definition plain (bs : list byte) : file := File bs false false.

(** An origin that serves the listed URLs and answers 404 for the rest. *)
Definition serve (l : list (string * response)) (url : string) : response :=
  match find (fun kv => String.eqb (fst kv) url) l with
  | Some kv => snd kv
  | None => Resp 404 [] false
  end.

Definition no_fault (_ : string) : bool := false.

Definition machine (fs : list (string * file)) (org : string -> response) : world :=
  World (list_to_map fs) no_fault no_fault org [].

Definition release_v8 : list (string * response) :=
  [ (sha_url, Resp 200 (digest_file abc "builtin-actors-mainnet.car") false);
    (car_url, Resp 200 abc false);
    (bundleUrl "v8.0.0" (bundleHash "calibrationnet"),
     Resp 200 (digest_file abd "builtin-actors-calibrationnet.car") false);
    (bundleUrl "v8.0.0" (bundleFile "calibrationnet"), Resp 200 abd false) ].

(** Nothing cached, a sound origin. *)
Definition empty_cache : world := machine [] (serve release_v8).

(** A valid pair in place. *)
Definition valid_cache : world :=
  machine [(car, plain abc); (sha, plain (digest_file abc "builtin-actors-mainnet.car"))]
          (serve release_v8).

(** The artifact differs from what its digest file says. *)
Definition mutated_cache : world :=
  machine [(car, plain abd); (sha, plain (digest_file abc "builtin-actors-mainnet.car"))]
          (serve release_v8).

(** The artifact in place fails to read mid-stream. *)
Definition unreadable_cache : world :=
  machine [(car, File abc false true);
           (sha, plain (digest_file abc "builtin-actors-mainnet.car"))]
          (serve release_v8).

(** The digest file ends at the newline. *)
Definition bare_digest_cache : world :=
  machine [(car, plain abc); (sha, plain (bare_digest_file abc))] (serve release_v8).

(** The release does not exist at the origin. *)
Definition no_release : world := machine [] (serve []).

(** The origin serves an artifact that does not match its digest file. *)
Definition corrupt_origin : world :=
  machine []
    (serve [ (sha_url, Resp 200 (digest_file abc "builtin-actors-mainnet.car") false);
             (car_url, Resp 200 abd false) ]).

(** An artifact in place without its digest file, and an origin whose
    artifact download breaks after two bytes. *)
Definition broken_download : world :=
  machine [(car, plain abc)]
    (serve [ (sha_url, Resp 200 (digest_file abc "builtin-actors-mainnet.car") false);
             (car_url, Resp 200 ab true) ]).

(** The world the retrieve step for mainnet leaves. *)
Definition retrieved (w : world) : world :=
  snd (fetch "v8.0.0" (bundleBasePath fetcher 8 "v8.0.0")
             (bundleFile "mainnet") (bundleHash "mainnet") w).

End Scenario.

(** ** More worlds *)

Module Cases.
Import Scenario.

Definition sha_calibnet : string :=
  "/tmp/cache/builtin-actors/v8/v8.0.0/builtin-actors-calibrationnet.sha256".

(** The digest file is empty. *)
Definition empty_digest_cache : world :=
  machine [(car, plain abc); (sha, plain [])] (serve release_v8).

(** The digest file is written in upper case. *)
Definition upper_digest_cache : world :=
  machine [(car, plain abc);
           (sha, plain (list_byte_of_string
                          (Text.ToUpper (string_of_list_byte
                                           (digest_file abc "builtin-actors-mainnet.car")))))]
          (serve release_v8).

(** Neither file is there, and nothing is served. *)
Definition nothing_cached : world := machine [] (serve []).

(** The digest file is malformed and the artifact is missing. *)
Definition malformed_digest_only : world :=
  machine [(sha, plain (list_byte_of_string "not a digest"))] (serve release_v8).


(** The bundle of calibrationnet fetched into the empty cache. *)
Definition calibnet_cached : world :=
  snd (Fetch Sha256.Sum256 fetcher 8 "v8.0.0" "calibrationnet" empty_cache).

End Cases.

(** * The library models on the libraries' own examples *)

Module Examples.

Example Split_spaces :
  GoStrings.Split "ab cd  e" " " = ["ab"; "cd"; EmptyString; "e"]
  /\ GoStrings.Split EmptyString " " = [EmptyString] /\ GoStrings.Split " a" " " = [EmptyString; "a"].
Proof. repeat apply conj; reflexivity. Qed.

Example fmt_d_values :
  map GoStrings.fmt_d [0; 8; 16; -3]%Z = ["0"; "8"; "16"; "-3"].
Proof. reflexivity. Qed.

Example Decode_values :
  Hex.DecodeString "00ff1A" = inr [x00; xff; x1a]
  /\ Hex.DecodeString "abc" = inl Hex.ErrLength
  /\ Hex.DecodeString "0g1" = inl (Hex.InvalidByteError "g")
  /\ Hex.DecodeString EmptyString = inr [].
Proof. repeat apply conj; reflexivity. Qed.

Example Clean_values :
  map Filepath.Clean
    [ "abc"; "abc/def"; "a/b/c"; "."; ".."; "../.."; "../../abc"; "/abc";
      "/"; EmptyString; "abc/"; "abc/def/"; "a/b/c/"; "./"; "../"; "../../";
      "/abc/"; "abc//def//ghi"; "abc//"; "abc/./def"; "/./abc/def"; "abc/.";
      "abc/def/ghi/../jkl"; "abc/def/../ghi/../jkl"; "abc/def/..";
      "abc/def/../.."; "/abc/def/../.."; "abc/def/../../..";
      "/abc/def/../../.."; "abc/def/../../../ghi/jkl/../../../mno";
      "/../abc"; "abc/./../def"; "abc//./../def"; "abc/../../././../def";
      "//abc" ]
  = [ "abc"; "abc/def"; "a/b/c"; "."; ".."; "../.."; "../../abc"; "/abc";
      "/"; "."; "abc"; "abc/def"; "a/b/c"; "."; ".."; "../.."; "/abc";
      "abc/def/ghi"; "abc"; "abc/def"; "/abc/def"; "abc"; "abc/def/jkl";
      "abc/jkl"; "abc"; "."; "/"; ".."; "/"; "../../mno"; "/abc"; "def";
      "def"; "../../def"; "/abc" ].
Proof. reflexivity. Qed.

Example Join_values :
  map Filepath.Join
      [["a"; "b"]; ["a"; EmptyString]; [EmptyString; "b"]; ["/"; "a"]; ["/"; "a/b"]; ["/"; EmptyString];
       ["//"; "a"]; ["/a"; "b"]; ["a/"; "b"]; ["a/"; EmptyString]; [EmptyString; EmptyString]; []]
    = ["a/b"; "a"; "b"; "/a"; "/a/b"; "/"; "/a"; "/a/b"; "a/b"; "a"; EmptyString; EmptyString].
Proof. reflexivity. Qed.

Example Dir_values :
  map Filepath.Dir [EmptyString; "."; "/."; "/"; "/foo"; "x/"; "abc"; "abc/def"; "a/b/.x"; "a/b/c.x"]
    = ["."; "."; "/"; "/"; "/"; "x"; "."; "abc"; "a/b"; "a/b"].
Proof. reflexivity. Qed.

(** The one-block and the two-block message of FIPS 180-4, and the empty
    message. *)
Example Sum256_values :
  Sha256.hex "abc" = "ba7816bf8f01cfea414140de5dae2223b00361a396177a9cb410ff61f20015ad"
  /\ Sha256.hex "abcdbcdecdefdefgefghfghighijhijkijkljklmklmnlmnomnopnopq"
     = "248d6a61d20638b8e5c026930c3e6039a33ce45964ff2167f6ecedd419db06c1"
  /\ Sha256.hex EmptyString = "e3b0c44298fc1c149afbf4c8996fb92427ae41e4649b934ca495991b7852b855".
Proof. repeat apply conj; vm_compute; reflexivity. Qed.

End Examples.

(** * Facts about the library models *)

Module StringFacts.
Import GoStrings.

#[local] Arguments String.append !_ _ / : simpl nomatch.

Lemma append_nil_r (s : string) : s +:+ EmptyString = s.
Proof. induction s as [|a s IH]; simpl; [reflexivity | now rewrite IH]. Qed.

Lemma append_assoc (a b c : string) : (a +:+ b) +:+ c = a +:+ (b +:+ c).
Proof. induction a as [|x a IH]; simpl; [reflexivity | now rewrite IH]. Qed.

Lemma append_inv_head (a b c : string) : a +:+ b = a +:+ c -> b = c.
Proof.
  induction a as [|x a IH]; simpl; intros H; [exact H |].
  injection H as H. now apply IH.
Qed.

Lemma length_append (a b : string) :
  String.length (a +:+ b) = (String.length a + String.length b)%nat.
Proof. induction a as [|x a IH]; simpl; [reflexivity | now rewrite IH]. Qed.

Lemma append_inv_tail (a b c : string) : a +:+ c = b +:+ c -> a = b.
Proof.
  revert b. induction a as [|x a IH]; intros [|y b] H; simpl in H.
  - reflexivity.
  - apply (f_equal String.length) in H. simpl in H.
    rewrite length_append in H. lia.
  - apply (f_equal String.length) in H. simpl in H.
    rewrite length_append in H. lia.
  - injection H as -> H. f_equal. now apply IH.
Qed.

Lemma free_of_append (c : ascii) (a b : string) :
  free_of c (a +:+ b) = free_of c a && free_of c b.
Proof.
  induction a as [|x a IH]; simpl; [reflexivity |].
  rewrite IH. now rewrite andb_assoc.
Qed.

Lemma last_byte_append (a b : string) :
  b <> EmptyString -> last_byte (a +:+ b) = last_byte b.
Proof.
  intros Hb. induction a as [|x a IH]; simpl; [reflexivity |].
  rewrite <- IH. destruct (a +:+ b) eqn:E; [| reflexivity].
  destruct a; simpl in E; [contradiction | discriminate].
Qed.

(** [Split] never gives the empty list. *)
Lemma Split_nonempty (s : string) (sep : ascii) : Split s sep <> [].
Proof.
  destruct s as [|a s]; simpl; [discriminate |].
  destruct (Ascii.eqb a sep); [discriminate |].
  destruct (Split s sep); discriminate.
Qed.

Lemma Split_free (s : string) (sep : ascii) :
  free_of sep s = true -> Split s sep = [s].
Proof.
  induction s as [|a s IH]; simpl; [reflexivity |].
  intros H. apply andb_prop in H as [Ha Hs].
  apply negb_true_iff in Ha. rewrite Ha, (IH Hs). reflexivity.
Qed.

(** The pieces of [a sep b] are those of [a] followed by those of [b]. *)
Lemma Split_append_sep (a b : string) (sep : ascii) :
  Split (a +:+ String sep b) sep = Split a sep ++ Split b sep.
Proof.
  induction a as [|x a IH]; simpl.
  - now rewrite Ascii.eqb_refl.
  - destruct (Ascii.eqb x sep); [now rewrite IH |].
    rewrite IH. destruct (Split a sep) eqn:E; [| reflexivity].
    now apply Split_nonempty in E.
Qed.

(** Text without separator appended to a string extends its last piece. *)
Lemma Split_snoc (s : string) (sep : ascii) :
  exists init l,
    Split s sep = init ++ [l] /\
    forall t, free_of sep t = true -> Split (s +:+ t) sep = init ++ [l +:+ t].
Proof.
  induction s as [|a s (init & l & Hs & Ht)].
  - exists [], EmptyString. split; [reflexivity |]. intros t Hfree. now apply Split_free.
  - simpl. destruct (Ascii.eqb a sep).
    + exists (EmptyString :: init), l. rewrite Hs. split; [reflexivity |].
      intros t Hfree. now rewrite (Ht t Hfree).
    + destruct init as [|i0 init].
      * exists [], (String a l). rewrite Hs. split; [reflexivity |].
        intros t Hfree. now rewrite (Ht t Hfree).
      * exists (String a i0 :: init), l. rewrite Hs. split; [reflexivity |].
        intros t Hfree. now rewrite (Ht t Hfree).
Qed.

(** The first piece is the text before the first separator. *)
Lemma hd_Split (s : string) (sep : ascii) : hd EmptyString (Split s sep) = before sep s.
Proof.
  induction s as [|a s IH]; simpl; [reflexivity |].
  destruct (Ascii.eqb a sep); [reflexivity |].
  rewrite <- IH. destruct (Split s sep) eqn:E; [| reflexivity].
  now apply Split_nonempty in E.
Qed.

Lemma before_free (sep : ascii) (s : string) : free_of sep (before sep s) = true.
Proof.
  induction s as [|a s IH]; simpl; [reflexivity |].
  destruct (Ascii.eqb a sep) eqn:E; simpl; [reflexivity |].
  now rewrite E, IH.
Qed.

Lemma before_append_sep (sep : ascii) (t rest : string) :
  free_of sep t = true -> before sep (t +:+ String sep rest) = t.
Proof.
  induction t as [|a t IH]; simpl; intros H.
  - now rewrite Ascii.eqb_refl.
  - apply andb_prop in H as [Ha Ht]. apply negb_true_iff in Ha.
    now rewrite Ha, (IH Ht).
Qed.

Lemma before_of_free (sep : ascii) (t : string) :
  free_of sep t = true -> before sep t = t.
Proof.
  induction t as [|a t IH]; simpl; intros H; [reflexivity |].
  apply andb_prop in H as [Ha Ht]. apply negb_true_iff in Ha.
  now rewrite Ha, (IH Ht).
Qed.

Lemma Join_snoc (es : list string) (e sep : string) :
  es <> [] -> Join (es ++ [e]) sep = Join es sep +:+ sep +:+ e.
Proof.
  induction es as [|x es IH]; [contradiction |]. intros _.
  destruct es as [|y es]; [reflexivity |].
  change (Join ((x :: y :: es) ++ [e]) sep)
    with (x +:+ sep +:+ Join ((y :: es) ++ [e]) sep).
  rewrite IH by discriminate.
  change (Join (x :: y :: es) sep) with (x +:+ sep +:+ Join (y :: es) sep).
  now rewrite !append_assoc.
Qed.

(** Decimal numerals have no slash. *)
Lemma free_of_uint (u : Decimal.uint) :
  free_of "/" (NilEmpty.string_of_uint u) = true.
Proof. induction u; simpl; auto. Qed.

Lemma free_of_fmt_d (z : Z) : free_of "/" (fmt_d z) = true.
Proof.
  assert (H : forall u, free_of "/" (NilZero.string_of_uint u) = true).
  { intros u. unfold NilZero.string_of_uint.
    destruct u; try reflexivity; apply (free_of_uint (_ u)). }
  unfold fmt_d, NilZero.string_of_int. destruct (Z.to_int z) as [u|u]; simpl; apply H.
Qed.

End StringFacts.

Module FilepathFacts.
Import GoStrings StringFacts Filepath.

#[local] Arguments String.append !_ _ / : simpl nomatch.

Lemma eqb_length_neq (a b : string) :
  String.length a <> String.length b -> String.eqb a b = false.
Proof.
  intros H. destruct (String.eqb_spec a b) as [->|]; [contradiction | reflexivity].
Qed.

(** Any element that is not empty, [.] or [..] is kept by [clean_step]. *)
Lemma clean_step_keep (abs : bool) (kept : list string) (e : string) :
  String.eqb e EmptyString = false -> String.eqb e "." = false -> String.eqb e ".." = false ->
  clean_step abs kept e = e :: kept.
Proof. intros H0 H1 H2. unfold clean_step. now rewrite H0, H1, H2. Qed.

Lemma clean_step_long (abs : bool) (kept : list string) (e : string) :
  (3 <= String.length e)%nat -> clean_step abs kept e = e :: kept.
Proof.
  intros H. apply clean_step_keep; apply eqb_length_neq; simpl; lia.
Qed.

Lemma clean_step_elem (abs : bool) (kept : list string) (e : string) :
  is_elem e = true -> clean_step abs kept e = e :: kept.
Proof.
  unfold is_elem. intros H.
  repeat (apply andb_prop in H as [H ?]).
  apply clean_step_keep; now apply negb_true_iff.
Qed.

Lemma clean_elems_snoc (abs : bool) (es : list string) (e : string) :
  clean_step abs (fold_left (clean_step abs) es []) e
    = e :: fold_left (clean_step abs) es [] ->
  clean_elems abs (es ++ [e]) = clean_elems abs es ++ [e].
Proof.
  intros H. unfold clean_elems. rewrite fold_left_app. simpl. now rewrite H.
Qed.

Lemma rooted_append (s t : string) :
  free_of "/" t = true -> rooted (s +:+ t) = rooted s.
Proof.
  intros Ht. destruct s as [|a s]; [| reflexivity].
  simpl. destruct t as [|b t]; [reflexivity |].
  simpl in Ht. apply andb_prop in Ht as [Hb _]. apply negb_true_iff in Hb.
  unfold rooted. destruct (Ascii.eqb_spec b "/") as [->|Hne]; [discriminate |].
  destruct b as [[] [] [] [] [] [] [] []]; try reflexivity. now elim Hne.
Qed.

Lemma rooted_append_nonempty (s t : string) :
  s <> EmptyString -> rooted (s +:+ t) = rooted s.
Proof. destruct s; [contradiction | reflexivity]. Qed.

Lemma Join_nil_inv (es : list string) (e sep : string) :
  GoStrings.Join (es ++ [e]) sep = (if es is [] then e else GoStrings.Join es sep +:+ sep +:+ e).
Proof. destruct es; [reflexivity |]. now apply Join_snoc. Qed.

(** Cleaning a path that ends in slash-free text of three bytes or more
    keeps that text at the end, after a prefix that does not depend on
    it. *)
Lemma Clean_append_tail (s : string) :
  exists pre, forall t,
    free_of "/" t = true -> (3 <= String.length t)%nat ->
    Clean (s +:+ t) = pre +:+ t.
Proof.
  destruct (Split_snoc s "/") as (init & l & _ & Hsplit).
  set (kept := fold_left (clean_step (rooted s)) init []).
  exists ((if rooted s then "/" else EmptyString)
          +:+ (if rev kept is [] then EmptyString else GoStrings.Join (rev kept) "/" +:+ "/")
          +:+ l).
  intros t Hfree Hlen. unfold Clean.
  rewrite eqb_length_neq by (rewrite length_append; simpl; lia).
  rewrite (rooted_append _ _ Hfree), (Hsplit t Hfree).
  rewrite clean_elems_snoc
    by (apply clean_step_long; rewrite length_append; lia).
  fold kept. unfold clean_elems. fold kept. rewrite Join_nil_inv.
  destruct (rev kept) as [|k ks].
  - destruct (rooted s); simpl; [reflexivity |].
    now rewrite eqb_length_neq by (rewrite !length_append; simpl; lia).
  - remember (GoStrings.Join (k :: ks) "/") as body.
    destruct (rooted s).
    + now rewrite !append_assoc.
    + rewrite eqb_length_neq by (rewrite !length_append; simpl; lia).
      now rewrite !append_assoc.
Qed.

(** The same for a file name joined to a directory. *)
Lemma Join_tail (base x : string) :
  exists pre, forall t,
    free_of "/" t = true -> (3 <= String.length t)%nat ->
    Join [base; x +:+ t] = pre +:+ t.
Proof.
  destruct (String.eqb_spec base EmptyString) as [->|Hbase].
  - destruct (Clean_append_tail x) as (pre & Hpre). exists pre. intros t Hfree Hlen.
    simpl. rewrite eqb_length_neq by (rewrite length_append; simpl; lia).
    now apply Hpre.
  - destruct (Clean_append_tail (base +:+ "/" +:+ x)) as (pre & Hpre).
    exists pre. intros t Hfree Hlen. unfold Join.
    apply String.eqb_neq in Hbase. rewrite Hbase.
    rewrite <- (Hpre t Hfree Hlen). simpl. now rewrite !append_assoc.
Qed.

Lemma Join_file (base : string) :
  exists pre, forall f,
    free_of "/" f = true -> (3 <= String.length f)%nat ->
    Join [base; f] = pre +:+ f.
Proof.
  destruct (Join_tail base EmptyString) as (pre & Hpre). exists pre. exact Hpre.
Qed.

(** Two slash-free file names in one directory give two paths. *)
Lemma Join_file_inj (base f g : string) :
  free_of "/" f = true -> (3 <= String.length f)%nat ->
  free_of "/" g = true -> (3 <= String.length g)%nat ->
  Join [base; f] = Join [base; g] -> f = g.
Proof.
  intros Hf Lf Hg Lg H. destruct (Join_file base) as (pre & Hpre).
  rewrite (Hpre f Hf Lf), (Hpre g Hg Lg) in H.
  now apply append_inv_head in H.
Qed.

(** A joined path ends like the file name it was given. *)
Lemma Join_last_byte (base x t : string) :
  free_of "/" t = true -> (3 <= String.length t)%nat ->
  last_byte (Join [base; x +:+ t]) = last_byte t.
Proof.
  intros Hfree Hlen. destruct (Join_tail base x) as (pre & Hpre).
  rewrite (Hpre t Hfree Hlen). apply last_byte_append.
  destruct t; [simpl in Hlen; lia | discriminate].
Qed.

Lemma upto_last_slash_append (s t : string) :
  free_of "/" t = true -> upto_last_slash (s +:+ t) = upto_last_slash s.
Proof.
  intros Hfree. induction s as [|a s IH].
  - simpl. destruct t as [|b t]; [reflexivity |].
    simpl. simpl in Hfree. now rewrite Hfree.
  - change (String a s +:+ t) with (String a (s +:+ t)).
    unfold upto_last_slash; fold upto_last_slash. rewrite IH.
    change (free_of "/" (String a (s +:+ t)))
      with (negb (Ascii.eqb a "/") && free_of "/" (s +:+ t)).
    change (free_of "/" (String a s)) with (negb (Ascii.eqb a "/") && free_of "/" s).
    now rewrite free_of_append, Hfree, andb_true_r.
Qed.

(** Slash-free file names joined to one directory lie in one directory. *)
Lemma Dir_Join_file (base f g : string) :
  free_of "/" f = true -> (3 <= String.length f)%nat ->
  free_of "/" g = true -> (3 <= String.length g)%nat ->
  Dir (Join [base; f]) = Dir (Join [base; g]).
Proof.
  intros Hf Lf Hg Lg. destruct (Join_file base) as (pre & Hpre).
  rewrite (Hpre f Hf Lf), (Hpre g Hg Lg). unfold Dir.
  now rewrite !upto_last_slash_append.
Qed.

Lemma clean_dir_nonempty (p : string) : clean_dir p -> p <> EmptyString.
Proof. intros (Hc & _ & _) ->. discriminate Hc. Qed.

(** A plain element appended to a clean directory gives a clean path. *)
Lemma Clean_extend (p e : string) :
  clean_dir p -> is_elem e = true ->
  Clean (p +:+ "/" +:+ e) = p +:+ "/" +:+ e.
Proof.
  intros Hp He. pose proof (clean_dir_nonempty p Hp) as Hne.
  destruct Hp as (Hc & Hdot & Hroot).
  assert (Hfree : free_of "/" e = true).
  { unfold is_elem in He. now repeat (apply andb_prop in He as [He ?]). }
  unfold Clean in *.
  rewrite eqb_length_neq by (rewrite !length_append; simpl; lia).
  apply String.eqb_neq in Hne. rewrite Hne in Hc.
  rewrite rooted_append_nonempty by (now apply String.eqb_neq).
  change ("/" +:+ e) with (String "/" e).
  rewrite Split_append_sep, (Split_free e "/" Hfree).
  rewrite clean_elems_snoc by (now apply clean_step_elem).
  rewrite Join_nil_inv.
  destruct (clean_elems (rooted p) (Split p "/")) as [|k ks].
  - destruct (rooted p); simpl in Hc; congruence.
  - remember (GoStrings.Join (k :: ks) "/") as body.
    destruct (rooted p).
    + rewrite <- Hc. now rewrite !append_assoc.
    + rewrite eqb_length_neq by (rewrite !length_append; simpl; lia).
      destruct (String.eqb body EmptyString); [now elim Hdot | now subst p].
Qed.

Lemma clean_dir_extend (p e : string) :
  clean_dir p -> is_elem e = true -> clean_dir (p +:+ "/" +:+ e).
Proof.
  intros Hp He. split; [now apply Clean_extend |].
  pose proof (clean_dir_nonempty p Hp) as Hne.
  assert (Hlen : (2 <= String.length (p +:+ "/" +:+ e))%nat).
  { rewrite !length_append. destruct p; [contradiction | simpl; lia]. }
  split; intros E; rewrite E in Hlen; simpl in Hlen; lia.
Qed.

Lemma Join2_clean (p e : string) :
  clean_dir p -> is_elem e = true -> Join [p; e] = p +:+ "/" +:+ e.
Proof.
  intros Hp He. pose proof (clean_dir_nonempty p Hp) as Hne.
  unfold Join. apply String.eqb_neq in Hne. rewrite Hne.
  now apply Clean_extend.
Qed.

Lemma Join3_clean (p e1 e2 : string) :
  clean_dir p -> is_elem e1 = true -> is_elem e2 = true ->
  Join [p; e1; e2] = p +:+ "/" +:+ e1 +:+ "/" +:+ e2.
Proof.
  intros Hp H1 H2. pose proof (clean_dir_nonempty p Hp) as Hne.
  unfold Join. apply String.eqb_neq in Hne. rewrite Hne.
  change (GoStrings.Join [p; e1; e2] "/") with (p +:+ "/" +:+ e1 +:+ "/" +:+ e2).
  rewrite <- (append_assoc "/" e1), <- (append_assoc p).
  rewrite Clean_extend by (auto using clean_dir_extend).
  now rewrite !append_assoc.
Qed.

Lemma is_elem_long (e : string) :
  free_of "/" e = true -> (3 <= String.length e)%nat -> is_elem e = true.
Proof.
  intros Hfree Hlen. unfold is_elem. rewrite Hfree.
  now rewrite !eqb_length_neq by (simpl; lia).
Qed.

(** ** Cleaning twice *)

Lemma Split_elems_free (s : string) (sep : ascii) :
  Forall (fun e => free_of sep e = true) (Split s sep).
Proof.
  induction s as [|a s IH]; simpl; [now repeat constructor |].
  destruct (Ascii.eqb a sep) eqn:E; [now constructor |].
  destruct (Split s sep) as [|t ts]; [now repeat constructor; simpl; rewrite E |].
  inversion IH as [|? ? Ht Hts]; subst. constructor; [| exact Hts].
  simpl. now rewrite E, Ht.
Qed.

Lemma only_dotdot_ok (kept : list string) :
  only_dotdot kept = true -> kept_ok false kept = true.
Proof.
  induction kept as [|e kept IH]; [reflexivity |].
  cbn [only_dotdot forallb]. intros H.
  apply andb_prop in H as [He Hk]. apply String.eqb_eq in He. subst e.
  cbn [kept_ok]. rewrite String.eqb_refl. exact Hk.
Qed.

Lemma kept_ok_step (abs : bool) (kept : list string) (e : string) :
  free_of "/" e = true -> kept_ok abs kept = true ->
  kept_ok abs (clean_step abs kept e) = true.
Proof.
  intros Hfree Hk. unfold clean_step.
  destruct (String.eqb e EmptyString) eqn:E0; [exact Hk |].
  destruct (String.eqb e ".") eqn:E1; [exact Hk |]. cbn [orb].
  destruct (String.eqb e "..") eqn:E2.
  - destruct kept as [|top below].
    + destruct abs; [reflexivity |]. cbn [kept_ok]. now rewrite Hfree, E2.
    + destruct (String.eqb top "..") eqn:Et.
      * cbn [kept_ok] in Hk. rewrite Et in Hk.
        apply andb_prop in Hk as [_ Hk]. apply andb_prop in Hk as [Habs Hbelow].
        cbn [kept_ok]. rewrite Hfree, E2, Habs. cbn [only_dotdot forallb].
        apply String.eqb_eq in Et. subst top. now rewrite String.eqb_refl.
      * cbn [kept_ok] in Hk. rewrite Et in Hk.
        apply andb_prop in Hk as [_ Hk]. now apply andb_prop in Hk as [_ Hk].
  - cbn [kept_ok]. now rewrite Hfree, E2, E0, E1, Hk.
Qed.

Lemma kept_ok_fold (abs : bool) (es kept : list string) :
  Forall (fun e => free_of "/" e = true) es -> kept_ok abs kept = true ->
  kept_ok abs (fold_left (clean_step abs) es kept) = true.
Proof.
  intros Hes. revert kept. induction Hes as [|e es He _ IH]; intros kept Hk; [exact Hk |].
  simpl. apply IH. now apply kept_ok_step.
Qed.

Lemma kept_ok_below (abs : bool) (e : string) (kept : list string) :
  kept_ok abs (e :: kept) = true -> kept_ok abs kept = true.
Proof.
  cbn [kept_ok]. intros H. apply andb_prop in H as [_ H].
  destruct (String.eqb e "..").
  - apply andb_prop in H as [Habs Hk]. destruct abs; [discriminate |].
    now apply only_dotdot_ok.
  - now apply andb_prop in H as [_ H].
Qed.

(** Every kept element is slash-free and not empty. *)
Lemma kept_ok_elems (abs : bool) (kept : list string) :
  kept_ok abs kept = true ->
  Forall (fun e => free_of "/" e = true /\ e <> EmptyString) kept.
Proof.
  induction kept as [|e kept IH]; intros H; [constructor |].
  constructor; [| apply IH; now apply kept_ok_below in H].
  cbn [kept_ok] in H. apply andb_prop in H as [Hfree H]. split; [exact Hfree |].
  intros ->. cbn in H. discriminate H.
Qed.

(** Cleaning the kept elements again, outermost first, keeps them all. *)
Lemma kept_ok_replay (abs : bool) (kept : list string) :
  kept_ok abs kept = true -> fold_left (clean_step abs) (rev kept) [] = kept.
Proof.
  induction kept as [|e kept IH]; intros H; [reflexivity |].
  cbn [rev]. rewrite fold_left_app. cbn [fold_left].
  rewrite IH by (now apply kept_ok_below in H).
  cbn [kept_ok] in H. apply andb_prop in H as [_ H].
  destruct (String.eqb e "..") eqn:E2.
  - apply String.eqb_eq in E2. subst e.
    apply andb_prop in H as [Habs Hk]. destruct abs; [discriminate |].
    unfold clean_step. cbn [String.eqb Ascii.eqb Bool.eqb orb].
    destruct kept as [|top below]; [reflexivity |].
    cbn [only_dotdot forallb] in Hk. apply andb_prop in Hk as [Ht _].
    rewrite String.eqb_sym in Ht. now rewrite Ht.
  - apply andb_prop in H as [H _]. apply andb_prop in H as [H0 H1].
    apply negb_true_iff in H0, H1. now apply clean_step_keep.
Qed.

Lemma Split_Join (es : list string) :
  es <> [] -> Forall (fun e => free_of "/" e = true /\ e <> EmptyString) es ->
  Split (GoStrings.Join es "/") "/" = es.
Proof.
  induction es as [|e es IH]; [contradiction |]. intros _ H.
  inversion H as [|? ? [He _] Hes]; subst.
  destruct es as [|e' es]; [now apply Split_free |].
  change (GoStrings.Join (e :: e' :: es) "/")
    with (e +:+ String "/" (GoStrings.Join (e' :: es) "/")).
  rewrite Split_append_sep, (Split_free e "/" He), IH by (discriminate || assumption).
  reflexivity.
Qed.

Lemma Join_elems_nonempty (es : list string) :
  Forall (fun e => free_of "/" e = true /\ e <> EmptyString) es ->
  GoStrings.Join es "/" = EmptyString -> es = [].
Proof.
  destruct es as [|e es]; [reflexivity |]. intros H E.
  inversion H as [|? ? [_ Hne] _]; subst.
  destruct es; [now elim Hne |].
  destruct e; [now elim Hne | discriminate E].
Qed.

Lemma rooted_Join_elems (es : list string) :
  Forall (fun e => free_of "/" e = true /\ e <> EmptyString) es ->
  rooted (GoStrings.Join es "/") = false.
Proof.
  destruct es as [|e es]; [reflexivity |]. intros H.
  inversion H as [|? ? [Hfree Hne] _]; subst.
  assert (He : rooted e = false).
  { destruct e as [|a e]; [reflexivity |]. simpl in Hfree.
    apply andb_prop in Hfree as [Ha _]. apply negb_true_iff in Ha.
    unfold rooted. destruct (Ascii.eqb_spec a "/") as [->|Hn]; [discriminate |].
    destruct a as [[] [] [] [] [] [] [] []]; try reflexivity. now elim Hn. }
  destruct es; [exact He |].
  change (GoStrings.Join (e :: s :: es) "/")
    with (e +:+ String "/" (GoStrings.Join (s :: es) "/")).
  now rewrite rooted_append_nonempty.
Qed.

Lemma Forall_rev_elems (P : string -> Prop) (l : list string) :
  Forall P l -> Forall P (rev l).
Proof.
  induction 1 as [|x l Hx _ IH]; [constructor |].
  cbn [rev]. apply Forall_app. split; [exact IH | now constructor].
Qed.

Lemma Clean_nonempty (p : string) : Clean p <> EmptyString.
Proof.
  unfold Clean. destruct (String.eqb p EmptyString); [discriminate |].
  destruct (rooted p); [discriminate |].
  destruct (String.eqb_spec (GoStrings.Join (clean_elems false (Split p "/")) "/") EmptyString);
    [discriminate | assumption].
Qed.

(** What [Clean] keeps of a path, cleaned again, is kept as it is. *)
Lemma Clean_replay (a : string) :
  a <> EmptyString ->
  rooted (Clean a) = rooted a /\
  fold_left (clean_step (rooted a)) (Split (Clean a) "/") []
    = fold_left (clean_step (rooted a)) (Split a "/") [].
Proof.
  intros Ha. apply String.eqb_neq in Ha.
  set (abs := rooted a).
  set (kept := fold_left (clean_step abs) (Split a "/") []).
  assert (Hk : kept_ok abs kept = true).
  { apply kept_ok_fold; [apply Split_elems_free | reflexivity]. }
  assert (Hel : Forall (fun e => free_of "/" e = true /\ e <> EmptyString) (rev kept)).
  { apply Forall_rev_elems. now apply (kept_ok_elems abs). }
  assert (Hc : Clean a = if abs then "/" +:+ GoStrings.Join (rev kept) "/"
                         else if String.eqb (GoStrings.Join (rev kept) "/") EmptyString then "."
                              else GoStrings.Join (rev kept) "/").
  { unfold Clean. now rewrite Ha. }
  rewrite Hc.
  destruct (rev kept) as [|e es] eqn:Erev.
  - assert (kept = []) as Hnil.
    { apply (f_equal (@rev string)) in Erev. now rewrite rev_involutive in Erev. }
    rewrite Hnil. destruct abs; split; reflexivity.
  - assert (Hsplit : Split (GoStrings.Join (e :: es) "/") "/" = e :: es)
      by (apply Split_Join; [discriminate | exact Hel]).
    assert (Hfold : fold_left (clean_step abs) (e :: es) [] = kept).
    { rewrite <- Erev. now apply kept_ok_replay. }
    destruct abs.
    + split; [reflexivity |].
      change ("/" +:+ GoStrings.Join (e :: es) "/")
        with (String "/" (GoStrings.Join (e :: es) "/")).
      change (Split (String "/" (GoStrings.Join (e :: es) "/")) "/")
        with (EmptyString :: Split (GoStrings.Join (e :: es) "/") "/").
      rewrite Hsplit. exact Hfold.
    + destruct (String.eqb_spec (GoStrings.Join (e :: es) "/") EmptyString) as [E|_].
      * apply Join_elems_nonempty in E; [discriminate | exact Hel].
      * split; [now apply rooted_Join_elems |]. rewrite Hsplit. exact Hfold.
Qed.

(** A path may be cleaned before more is appended to it. *)
Lemma Clean_Clean_append (a b : string) :
  a <> EmptyString -> Clean (Clean a +:+ String "/" b) = Clean (a +:+ String "/" b).
Proof.
  intros Ha. destruct (Clean_replay a Ha) as (Hroot & Hfold).
  pose proof (Clean_nonempty a) as Hc.
  unfold Clean at 1 3.
  assert (E1 : String.eqb (Clean a +:+ String "/" b) EmptyString = false).
  { destruct (Clean a); [contradiction | reflexivity]. }
  assert (E2 : String.eqb (a +:+ String "/" b) EmptyString = false).
  { destruct a; [contradiction | reflexivity]. }
  rewrite E1, E2, !rooted_append_nonempty, Hroot by assumption.
  unfold clean_elems. rewrite !Split_append_sep, !fold_left_app, Hfold. reflexivity.
Qed.

Lemma Clean_idem (a : string) : a <> EmptyString -> Clean (Clean a) = Clean a.
Proof.
  intros Ha. destruct (Clean_replay a Ha) as (Hroot & Hfold).
  pose proof (Clean_nonempty a) as Hc.
  unfold Clean at 1. apply String.eqb_neq in Hc. rewrite Hc, Hroot.
  unfold clean_elems. rewrite Hfold. unfold Clean, clean_elems.
  apply String.eqb_neq in Ha. now rewrite Ha.
Qed.

(** A slash at the end is dropped. *)
Lemma Clean_trailing_slash (a : string) :
  a <> EmptyString -> Clean (a +:+ "/") = Clean a.
Proof.
  intros Ha. unfold Clean.
  assert (E : String.eqb (a +:+ "/") EmptyString = false).
  { destruct a; [contradiction | reflexivity]. }
  rewrite E, rooted_append_nonempty by assumption.
  apply String.eqb_neq in Ha. rewrite Ha.
  change (a +:+ "/") with (a +:+ String "/" EmptyString).
  unfold clean_elems. rewrite Split_append_sep, fold_left_app. reflexivity.
Qed.

Lemma upto_last_slash_slash (s : string) :
  upto_last_slash (s +:+ "/") = s +:+ "/".
Proof.
  induction s as [|a s IH]; [reflexivity |].
  change (String a s +:+ "/") with (String a (s +:+ "/")).
  unfold upto_last_slash; fold upto_last_slash. rewrite IH.
  change (free_of "/" (String a (s +:+ "/")))
    with (negb (Ascii.eqb a "/") && free_of "/" (s +:+ "/")).
  rewrite free_of_append. cbn. now rewrite !andb_false_r.
Qed.

Lemma upto_last_slash_free (s : string) :
  free_of "/" s = true -> upto_last_slash s = EmptyString.
Proof. intros H. destruct s; [reflexivity |]. unfold upto_last_slash. now rewrite H. Qed.

Lemma Clean_dot_elem (f : string) : is_elem f = true -> Clean (String "." (String "/" f)) = f.
Proof.
  intros He.
  assert (Hfree : free_of "/" f = true).
  { unfold is_elem in He. now repeat (apply andb_prop in He as [He ?]). }
  assert (Hf : String.eqb f EmptyString = false).
  { unfold is_elem in He. repeat (apply andb_prop in He as [He ?]).
    now apply negb_true_iff. }
  unfold Clean. cbn [String.eqb rooted].
  change (Split (String "." (String "/" f)) "/") with ("." :: Split f "/").
  rewrite (Split_free f "/" Hfree). unfold clean_elems. cbn [fold_left].
  change (clean_step false [] ".") with (@nil string).
  rewrite (clean_step_elem false [] f He). cbn [rev app GoStrings.Join].
  now rewrite Hf.
Qed.

Lemma Clean_root_elem (f : string) :
  is_elem f = true -> Clean (String "/" (String "/" f)) = String "/" f.
Proof.
  intros He.
  assert (Hfree : free_of "/" f = true).
  { unfold is_elem in He. now repeat (apply andb_prop in He as [He ?]). }
  unfold Clean. cbn [String.eqb rooted].
  change (Split (String "/" (String "/" f)) "/")
    with (EmptyString :: EmptyString :: Split f "/").
  rewrite (Split_free f "/" Hfree). unfold clean_elems. cbn [fold_left].
  change (clean_step true [] EmptyString) with (@nil string).
  change (clean_step true [] EmptyString) with (@nil string).
  now rewrite (clean_step_elem true [] f He).
Qed.

(** The directory of a plain file name joined to a cleaned directory is
    that directory. *)
Lemma Dir_Join_elem (a f : string) :
  a <> EmptyString -> is_elem f = true -> Dir (Join [Clean a; f]) = Clean a.
Proof.
  intros Ha He.
  assert (Hfree : free_of "/" f = true).
  { unfold is_elem in He. now repeat (apply andb_prop in He as [He ?]). }
  destruct (String.eqb_spec (Clean a) ".") as [Edot | Hdot];
    [| destruct (String.eqb_spec (Clean a) "/") as [Eroot | Hroot]].
  - rewrite Edot.
    change (Join ["."; f]) with (Clean (String "." (String "/" f))).
    rewrite Clean_dot_elem by exact He. unfold Dir.
    now rewrite (upto_last_slash_free f Hfree).
  - rewrite Eroot.
    change (Join ["/"; f]) with (Clean (String "/" (String "/" f))).
    rewrite Clean_root_elem by exact He. unfold Dir.
    change (String "/" f) with ("/" +:+ f).
    now rewrite (upto_last_slash_append "/" f Hfree).
  - assert (Hclean : clean_dir (Clean a)).
    { split; [now apply Clean_idem | split; assumption]. }
    rewrite Join2_clean by assumption. unfold Dir.
    rewrite <- append_assoc, (upto_last_slash_append _ f Hfree), upto_last_slash_slash.
    rewrite Clean_trailing_slash by apply Clean_nonempty.
    now apply Clean_idem.
Qed.

(** A join that keeps an element is a cleaned path. *)
Lemma Join_is_Clean (xs : list string) :
  Join xs <> EmptyString -> exists a, a <> EmptyString /\ Join xs = Clean a.
Proof.
  induction xs as [|x xs IH]; [now intros H; elim H |].
  cbn [Join]. destruct (String.eqb_spec x EmptyString) as [->|Hne]; [exact IH |].
  intros _. exists (GoStrings.Join (x :: xs) "/"). split; [| reflexivity].
  destruct xs; [exact Hne |]. destruct x; [now elim Hne | discriminate].
Qed.

Lemma GoJoin_app (xs ys : list string) (sep : string) :
  xs <> [] -> ys <> [] ->
  GoStrings.Join (xs ++ ys) sep = GoStrings.Join xs sep +:+ sep +:+ GoStrings.Join ys sep.
Proof.
  intros Hx Hy. induction xs as [|x xs IH]; [contradiction |].
  destruct xs as [|x' xs].
  - destruct ys; [contradiction | reflexivity].
  - change (GoStrings.Join ((x :: x' :: xs) ++ ys) sep)
      with (x +:+ sep +:+ GoStrings.Join ((x' :: xs) ++ ys) sep).
    rewrite IH by discriminate.
    change (GoStrings.Join (x :: x' :: xs) sep)
      with (x +:+ sep +:+ GoStrings.Join (x' :: xs) sep).
    now rewrite !append_assoc.
Qed.

(** Joining onto a joined path is joining all the elements at once. *)
Lemma Join_Join (xs ys : list string) :
  Join xs <> EmptyString -> ys <> [] -> Join (Join xs :: ys) = Join (xs ++ ys).
Proof.
  intros Hx Hy. induction xs as [|x xs IH]; [now elim Hx |].
  cbn [Join app] in *. destruct (String.eqb_spec x EmptyString) as [->|Hne].
  - now apply IH.
  - pose proof (Clean_nonempty (GoStrings.Join (x :: xs) "/")) as Hc.
    apply String.eqb_neq in Hc. rewrite Hc.
    change (x :: xs ++ ys) with ((x :: xs) ++ ys).
    rewrite GoJoin_app by (discriminate || assumption).
    destruct ys as [|y ys]; [contradiction |].
    change (GoStrings.Join (Clean (GoStrings.Join (x :: xs) "/") :: y :: ys) "/")
      with (Clean (GoStrings.Join (x :: xs) "/") +:+ String "/" (GoStrings.Join (y :: ys) "/")).
    apply Clean_Clean_append.
    destruct xs; [exact Hne |]. destruct x; [now elim Hne | discriminate].
Qed.

Lemma Join_head_nonempty (x : string) (xs : list string) :
  x <> EmptyString -> Join (x :: xs) <> EmptyString.
Proof.
  intros Hx. cbn [Join]. apply String.eqb_neq in Hx. rewrite Hx. apply Clean_nonempty.
Qed.

End FilepathFacts.

Module BytesFacts.

Lemma Equal_eq (a b : list byte) : Bytes.Equal a b = true <-> a = b.
Proof.
  revert b. induction a as [|x a IH]; intros [|y b]; simpl; split; try congruence.
  - intros H. apply andb_prop in H as [Hxy Hab].
    apply Byte.byte_dec_bl in Hxy. apply IH in Hab. congruence.
  - intros [= -> ->]. rewrite (Byte.byte_dec_lb eq_refl). simpl. now apply IH.
Qed.

Lemma Equal_neq (a b : list byte) : Bytes.Equal a b = false <-> a <> b.
Proof.
  rewrite <- Equal_eq. destruct (Bytes.Equal a b); split; congruence.
Qed.

(** A proper prefix is not equal. *)
Lemma Equal_proper_prefix (a rest : list byte) :
  rest <> [] -> Bytes.Equal (a ++ rest) a = false.
Proof.
  intros Hrest. apply Equal_neq. intros E.
  apply (f_equal (@length byte)) in E. rewrite length_app in E.
  destruct rest; [contradiction | simpl in E; lia].
Qed.

End BytesFacts.

Module HexFacts.
Import Hex.

Lemma decode_encode_byte (b : byte) :
  fromHexChar (hexdigit (Byte.to_N b / 16)) = Some (Byte.to_N b / 16)%N /\
  fromHexChar (hexdigit (Byte.to_N b mod 16)) = Some (Byte.to_N b mod 16)%N /\
  byte_of_nibbles (Byte.to_N b / 16) (Byte.to_N b mod 16) = b.
Proof. destruct b; vm_compute; auto. Qed.

(** Decoding undoes encoding. *)
Lemma Decode_Encode (bs : list byte) : DecodeString (EncodeToString bs) = inr bs.
Proof.
  induction bs as [|b bs IH]; [reflexivity |].
  destruct (decode_encode_byte b) as (Hhi & Hlo & Hb).
  cbn [EncodeToString DecodeString]. cbv zeta. rewrite Hhi, Hlo, IH, Hb. reflexivity.
Qed.

Lemma hexdigit_not_space (b : byte) :
  Ascii.eqb (hexdigit (Byte.to_N b / 16)) " " = false /\
  Ascii.eqb (hexdigit (Byte.to_N b mod 16)) " " = false.
Proof. destruct b; vm_compute; auto. Qed.

Lemma Encode_free_of_space (bs : list byte) :
  GoStrings.free_of " " (EncodeToString bs) = true.
Proof.
  induction bs as [|b bs IH]; [reflexivity |].
  destruct (hexdigit_not_space b) as (Hhi & Hlo).
  cbn [EncodeToString GoStrings.free_of]. cbv zeta. now rewrite Hhi, Hlo, IH.
Qed.

(** A tab or a newline is no hexadecimal digit: a token that holds one does
    not decode. *)
Lemma Decode_invalid (s : string) (c : ascii) :
  fromHexChar c = None -> GoStrings.free_of c s = false ->
  exists e, DecodeString s = inl e.
Proof.
  intros Hc. revert s.
  assert (IH2 : forall n s, (String.length s <= n)%nat ->
                 GoStrings.free_of c s = false -> exists e, DecodeString s = inl e).
  { induction n as [|n IH]; intros s Hlen Hfree.
    - destruct s; [discriminate Hfree | simpl in Hlen; lia].
    - destruct s as [|p [|q s]]; [discriminate Hfree | |].
      + simpl. destruct (fromHexChar p); eauto.
      + cbn [DecodeString]. destruct (fromHexChar p) eqn:Hp; [| eauto].
        destruct (fromHexChar q) eqn:Hq; [| eauto].
        destruct (IH s) as [e He].
        * simpl in Hlen. lia.
        * cbn [GoStrings.free_of] in Hfree.
          destruct (Ascii.eqb_spec p c) as [->|_]; [congruence |].
          destruct (Ascii.eqb_spec q c) as [->|_]; [congruence |].
          exact Hfree.
        * rewrite He. eauto. }
  intros s. now apply (IH2 (String.length s)).
Qed.

End HexFacts.

Module Sha256Facts.
Import Sha256.

Lemma length_be_bytes (n : nat) (x : Z) : length (be_bytes n x) = n.
Proof. unfold be_bytes. now rewrite length_map, length_rev, length_seq. Qed.

(** A digest has [Size] bytes. *)
Lemma length_Sum256 (msg : list byte) : length (Sum256 msg) = Size.
Proof.
  unfold Sum256, words_of. rewrite length_map. cbn [flat_map].
  rewrite !length_app, !length_be_bytes. reflexivity.
Qed.

End Sha256Facts.

(** * Facts about the fetcher *)

Section FetcherFacts.

Variable Sum256 : list byte -> list byte.

Abbreviation check := (check Sum256).
Abbreviation refetch := (refetch Sum256).
Abbreviation Fetch := (Fetch Sum256).

(** A digest file that starts with the digest in hexadecimal, alone or
    followed by a space and anything, parses to that digest. *)
Lemma parseDigest_hex (digest : list byte) (tail : string) :
  tail = EmptyString \/ (exists t, tail = String " " t) ->
  parseDigest (list_byte_of_string (Hex.EncodeToString digest +:+ tail)) = inr digest.
Proof.
  intros Htail. unfold parseDigest.
  rewrite string_of_list_byte_of_string, StringFacts.hd_Split.
  destruct Htail as [-> | (t & ->)].
  - rewrite StringFacts.append_nil_r.
    rewrite StringFacts.before_of_free by apply HexFacts.Encode_free_of_space.
    apply HexFacts.Decode_Encode.
  - rewrite StringFacts.before_append_sep by apply HexFacts.Encode_free_of_space.
    apply HexFacts.Decode_Encode.
Qed.

(** [check] only reads. *)
Lemma check_world (base file hash : string) (w : world) :
  snd (check base file hash w) = w.
Proof.
  unfold check, bind, or_fail, ret, fail.
  destruct (OS.Open _ w) as [f|]; [| reflexivity].
  destruct (OS.ReadAll f) as [bs|]; [| reflexivity].
  destruct (parseDigest bs) as [e|expected]; [reflexivity |].
  destruct (OS.Open _ w) as [g|]; [| reflexivity].
  destruct (OS.ReadAll g) as [content|]; [| reflexivity].
  now destruct (negb _).
Qed.

Lemma check_eta (base file hash : string) (w : world) :
  check base file hash w = (fst (check base file hash w), w).
Proof. rewrite <- (check_world base file hash w) at 3. now destruct (check _ _ _ w). Qed.

(** With both files readable, [check] compares the digest of the artifact
    with the digest parsed from the digest file. *)
Lemma check_readable (base file hash : string) (w : world)
    (d content expected : list byte) :
  contents w (Filepath.Join [base; hash]) = Some d ->
  parseDigest d = inr expected ->
  contents w (Filepath.Join [base; file]) = Some content ->
  fst (check base file hash w)
    = if Bytes.Equal (Sum256 content) expected then inr tt else inl ErrHashMismatch.
Proof.
  unfold contents, check, bind, or_fail, ret, fail. intros Hd Hp Hc.
  destruct (OS.Open (Filepath.Join [base; hash]) w) as [f|]; [| discriminate].
  rewrite Hd, Hp.
  destruct (OS.Open (Filepath.Join [base; file]) w) as [g|]; [| discriminate].
  rewrite Hc. now destruct (Bytes.Equal _ _).
Qed.

(** With the digest file read, the outcome is that of decoding it and then
    of opening, hashing and comparing the artifact. *)
Lemma check_parsed (base file hash : string) (w : world) (d : list byte) :
  contents w (Filepath.Join [base; hash]) = Some d ->
  fst (check base file hash w) =
    match parseDigest d with
    | inl e => inl (ErrDecode (Filepath.Join [base; hash]) e)
    | inr expected =>
        match OS.Open (Filepath.Join [base; file]) w with
        | None => inl (ErrOpen (Filepath.Join [base; file]))
        | Some f =>
            match OS.ReadAll f with
            | None => inl (ErrDigest (Filepath.Join [base; file]))
            | Some content =>
                if Bytes.Equal (Sum256 content) expected then inr tt
                else inl ErrHashMismatch
            end
        end
    end.
Proof.
  unfold contents, check, bind, or_fail, ret, fail. intros Hd.
  destruct (OS.Open (Filepath.Join [base; hash]) w) as [f|]; [| discriminate].
  rewrite Hd. destruct (parseDigest d) as [e|expected]; [reflexivity |].
  destruct (OS.Open (Filepath.Join [base; file]) w) as [g|]; [| reflexivity].
  destruct (OS.ReadAll g) as [content|]; [| reflexivity].
  now destruct (Bytes.Equal _ _).
Qed.

(** The digest file decides a decoding error alone. *)
Lemma check_decode (base file hash : string) (w : world) (d : list byte) (e : Hex.error) :
  contents w (Filepath.Join [base; hash]) = Some d ->
  parseDigest d = inl e ->
  fst (check base file hash w) = inl (ErrDecode (Filepath.Join [base; hash]) e).
Proof.
  unfold contents, check, bind, or_fail, ret, fail. intros Hd Hp.
  destruct (OS.Open (Filepath.Join [base; hash]) w) as [f|]; [| discriminate].
  now rewrite Hd, Hp.
Qed.

(** The ways [check] fails on the digest file: it is missing or does not
    open, it does not read, it does not decode. *)
Lemma check_digest_file_failures (base file hash : string) (w : world) :
  let hashPath := Filepath.Join [base; hash] in
  (OS.Open hashPath w = None -> fst (check base file hash w) = inl (ErrOpen hashPath)) /\
  (forall f, OS.Open hashPath w = Some f -> read_err f = true ->
             fst (check base file hash w) = inl (ErrRead hashPath)) /\
  (forall d e, contents w hashPath = Some d -> parseDigest d = inl e ->
               fst (check base file hash w) = inl (ErrDecode hashPath e)).
Proof.
  cbv zeta. repeat apply conj.
  - intros H. unfold check, bind, or_fail, fail. now rewrite H.
  - intros f H Hr. unfold check, bind, or_fail, ret, fail. rewrite H.
    unfold OS.ReadAll. now rewrite Hr.
  - intros d e. apply check_decode.
Qed.

(** When [check] succeeds both files were read and the digests are equal. *)
Lemma check_ok_inv (base file hash : string) (w : world) :
  fst (check base file hash w) = inr tt ->
  exists d content,
    contents w (Filepath.Join [base; hash]) = Some d /\
    contents w (Filepath.Join [base; file]) = Some content /\
    parseDigest d = inr (Sum256 content).
Proof.
  unfold contents, check, bind, or_fail, ret, fail.
  destruct (OS.Open (Filepath.Join [base; hash]) w) as [f|]; [| discriminate].
  destruct (OS.ReadAll f) as [d|]; [| discriminate].
  destruct (parseDigest d) as [e|expected] eqn:Hp; [discriminate |].
  destruct (OS.Open (Filepath.Join [base; file]) w) as [g|]; [| discriminate].
  destruct (OS.ReadAll g) as [content|]; [| discriminate].
  destruct (Bytes.Equal (Sum256 content) expected) eqn:E; [| discriminate].
  intros _. apply BytesFacts.Equal_eq in E. subst expected. eauto.
Qed.

Lemma contents_Stat (w : world) (p : string) (bs : list byte) :
  contents w p = Some bs -> OS.Stat p w = Some tt.
Proof.
  unfold contents, OS.Open, OS.Stat. now destruct (files w !! p).
Qed.

(** ** [fetchURL] *)

Lemma fetchURL_requests (url p : string) (w : world) :
  requests (snd (fetchURL url p w)) = requests w ++ [url].
Proof.
  unfold fetchURL, OS.Get. destruct (origin w url) as [|st body br]; [reflexivity |].
  destruct (negb _); [reflexivity |].
  unfold OS.OpenFile_trunc, OS.Write. cbn [create_err with_request].
  destruct (create_err w p); [reflexivity |].
  cbn [files with_files]. rewrite lookup_insert_eq. now destruct br.
Qed.

Lemma fetchURL_static (url p : string) (w : world) :
  let w' := snd (fetchURL url p w) in
  mkdir_err w' = mkdir_err w /\ create_err w' = create_err w /\ origin w' = origin w.
Proof.
  unfold fetchURL, OS.Get. destruct (origin w url) as [|st body br]; [now cbn |].
  destruct (negb _); [now cbn |].
  unfold OS.OpenFile_trunc, OS.Write. cbn [create_err with_request].
  destruct (create_err w p); [now cbn |].
  cbn [files with_files]. rewrite lookup_insert_eq. now destruct br.
Qed.

(** A download that stops before the local file is opened touches no file. *)
Lemma fetchURL_GetErr (url p : string) (w : world) :
  origin w url = GetErr ->
  fetchURL url p w = (inl (ErrGet url), with_request url w).
Proof. unfold fetchURL, OS.Get. now intros ->. Qed.

Lemma fetchURL_status (url p : string) (w : world) (st : Z) (body : list byte) (br : bool) :
  origin w url = Resp st body br -> st <> StatusOK ->
  fetchURL url p w = (inl (ErrStatus url st), with_request url w).
Proof.
  unfold fetchURL, OS.Get. intros -> Hst. apply Z.eqb_neq in Hst. now rewrite Hst.
Qed.

Lemma fetchURL_create_err (url p : string) (w : world) (body : list byte) (br : bool) :
  origin w url = Resp StatusOK body br -> create_err w p = true ->
  fetchURL url p w = (inl (ErrOpenWrite p), with_request url w).
Proof.
  unfold fetchURL, OS.Get, OS.OpenFile_trunc. intros -> Hc. cbn. now rewrite Hc.
Qed.

(** A download whose body is copied, in full or up to the break, leaves the
    bytes that arrived in the file. *)
Lemma fetchURL_copy (url p : string) (w : world) (body : list byte) (br : bool) :
  origin w url = Resp StatusOK body br -> create_err w p = false ->
  fetchURL url p w =
    (if br then inl (ErrWrite p) else inr tt,
     with_files (<[p := downloaded w p body]> (files w)) (with_request url w)).
Proof.
  unfold fetchURL, OS.Get, OS.OpenFile_trunc, OS.Write, downloaded.
  intros -> Hc. cbn. rewrite Hc. cbn. rewrite lookup_insert_eq. cbn.
  unfold with_files. cbn. rewrite insert_insert_eq. now destruct br.
Qed.

(** A download writes at its own path only. *)
Lemma fetchURL_other (url p q : string) (w : world) :
  p <> q -> files (snd (fetchURL url p w)) !! q = files w !! q.
Proof.
  intros Hpq. unfold fetchURL, OS.Get.
  destruct (origin w url) as [|st body br]; [reflexivity |].
  destruct (negb _); [reflexivity |].
  unfold OS.OpenFile_trunc, OS.Write. cbn [create_err with_request].
  destruct (create_err w p); [reflexivity |].
  cbn [files with_files]. rewrite lookup_insert_eq.
  destruct br; cbn; rewrite insert_insert_eq; now rewrite lookup_insert_ne.
Qed.

(** ** [fetch] *)

Lemma fetch_digest_fail (release base file hash : string) (w w1 : world) (c : error) :
  fetchURL (bundleUrl release hash) (Filepath.Join [base; hash]) w = (inl c, w1) ->
  fetch release base file hash w = (inl c, w1).
Proof. unfold fetch, bind. now intros ->. Qed.

Lemma fetch_digest_ok (release base file hash : string) (w w1 : world) :
  fetchURL (bundleUrl release hash) (Filepath.Join [base; hash]) w = (inr tt, w1) ->
  fetch release base file hash w
    = fetchURL (bundleUrl release file) (Filepath.Join [base; file]) w1.
Proof.
  unfold fetch, bind, ret. intros ->.
  now destruct (fetchURL _ _ w1) as [[c|[]] w2].
Qed.

(** The digest file is asked for first, the artifact after it, if at all. *)
Lemma fetch_requests (release base file hash : string) (w : world) :
  exists rest,
    requests (snd (fetch release base file hash w))
      = requests w ++ bundleUrl release hash :: rest /\
    (rest = [] \/ rest = [bundleUrl release file]).
Proof.
  destruct (fetchURL (bundleUrl release hash) (Filepath.Join [base; hash]) w)
    as [[c|[]] w1] eqn:E.
  - exists []. rewrite (fetch_digest_fail _ _ _ _ _ _ _ E). split; [| now left].
    change w1 with (snd (inl (B := unit) c, w1)). rewrite <- E. apply fetchURL_requests.
  - exists [bundleUrl release file]. rewrite (fetch_digest_ok _ _ _ _ _ _ E).
    split; [| now right]. rewrite fetchURL_requests.
    change w1 with (snd (inr (A := error) tt, w1)). rewrite <- E, fetchURL_requests.
    now rewrite <- app_assoc.
Qed.

(** A retrieve step that succeeds made both requests. *)
Lemma fetch_ok_requests (release base file hash : string) (w w1 : world) :
  fetch release base file hash w = (inr tt, w1) ->
  requests w1 = requests w ++ [bundleUrl release hash; bundleUrl release file].
Proof.
  intros H.
  destruct (fetchURL (bundleUrl release hash) (Filepath.Join [base; hash]) w)
    as [[c|[]] w0] eqn:E.
  - rewrite (fetch_digest_fail _ _ _ _ _ _ _ E) in H. discriminate.
  - rewrite (fetch_digest_ok _ _ _ _ _ _ E) in H.
    change w1 with (snd (inr (A := error) tt, w1)). rewrite <- H, fetchURL_requests.
    change w0 with (snd (inr (A := error) tt, w0)). rewrite <- E, fetchURL_requests.
    now rewrite <- app_assoc.
Qed.

Lemma fetch_static (release base file hash : string) (w : world) :
  let w' := snd (fetch release base file hash w) in
  mkdir_err w' = mkdir_err w /\ create_err w' = create_err w /\ origin w' = origin w.
Proof.
  cbv zeta.
  pose proof (fetchURL_static (bundleUrl release hash) (Filepath.Join [base; hash]) w) as H1.
  destruct (fetchURL (bundleUrl release hash) (Filepath.Join [base; hash]) w)
    as [[c|[]] w1] eqn:E; cbn in H1.
  - now rewrite (fetch_digest_fail _ _ _ _ _ _ _ E).
  - rewrite (fetch_digest_ok _ _ _ _ _ _ E).
    pose proof (fetchURL_static (bundleUrl release file) (Filepath.Join [base; file]) w1) as H2.
    cbv zeta in H2. destruct H1 as (A1 & B1 & C1), H2 as (A2 & B2 & C2).
    rewrite A2, B2, C2. auto.
Qed.

(** ** [refetch] *)

Lemma refetch_fetch_err (release base file hash : string) (w w1 : world) (c : error) :
  fetch release base file hash w = (inl c, w1) ->
  refetch release base file hash w = (inl (ErrFetchingBundle c), w1).
Proof. unfold refetch. now intros ->. Qed.

Lemma refetch_check_err (release base file hash : string) (w w1 : world) (c : error) :
  fetch release base file hash w = (inr tt, w1) ->
  fst (check base file hash w1) = inl c ->
  refetch release base file hash w = (inl (ErrCheckingBundle c), w1).
Proof. unfold refetch. intros -> Hc. now rewrite check_eta, Hc. Qed.

Lemma refetch_ok (release base file hash : string) (w w1 : world) :
  fetch release base file hash w = (inr tt, w1) ->
  fst (check base file hash w1) = inr tt ->
  refetch release base file hash w = (inr (Filepath.Join [base; file]), w1).
Proof. unfold refetch. intros -> Hc. now rewrite check_eta, Hc. Qed.

Lemma refetch_ok_inv (release base file hash p : string) (w w' : world) :
  refetch release base file hash w = (inr p, w') ->
  p = Filepath.Join [base; file] /\
  fetch release base file hash w = (inr tt, w') /\
  fst (check base file hash w') = inr tt.
Proof.
  unfold refetch. destruct (fetch release base file hash w) as [[c|[]] w1]; [discriminate |].
  rewrite check_eta.
  destruct (fst (check base file hash w1)) as [c|[]] eqn:Hc; [discriminate |].
  now intros [= <- <-].
Qed.

(** ** [Fetch] by cases *)

Lemma Fetch_mkdir_err (b : BundleFetcher) (version : Z) (release netw : string) (w : world) :
  mkdir_err w (bundleBasePath b version release) = true ->
  Fetch b version release netw w = (inl (ErrMkdir (bundleBasePath b version release)), w).
Proof. intros H. unfold Fetch, OS.MkdirAll. now rewrite H. Qed.

Lemma Fetch_hit (b : BundleFetcher) (version : Z) (release netw : string) (w : world) :
  mkdir_err w (bundleBasePath b version release) = false ->
  OS.Stat (bundleFilePath b version release netw) w = Some tt ->
  fst (check (bundleBasePath b version release) (bundleFile netw) (bundleHash netw) w) = inr tt ->
  Fetch b version release netw w = (inr (bundleFilePath b version release netw), w).
Proof.
  intros Hm Hs Hc. unfold Fetch, OS.MkdirAll. rewrite Hm.
  fold (bundleFilePath b version release netw). rewrite Hs.
  rewrite check_eta, Hc. reflexivity.
Qed.

Lemma Fetch_absent (b : BundleFetcher) (version : Z) (release netw : string) (w : world) :
  mkdir_err w (bundleBasePath b version release) = false ->
  OS.Stat (bundleFilePath b version release netw) w = None ->
  Fetch b version release netw w
    = refetch release (bundleBasePath b version release) (bundleFile netw) (bundleHash netw) w.
Proof.
  intros Hm Hs. unfold Fetch, OS.MkdirAll. rewrite Hm.
  fold (bundleFilePath b version release netw). now rewrite Hs.
Qed.

Lemma Fetch_invalid (b : BundleFetcher) (version : Z) (release netw : string) (w : world)
    (e : error) :
  mkdir_err w (bundleBasePath b version release) = false ->
  OS.Stat (bundleFilePath b version release netw) w = Some tt ->
  fst (check (bundleBasePath b version release) (bundleFile netw) (bundleHash netw) w) = inl e ->
  Fetch b version release netw w
    = refetch release (bundleBasePath b version release) (bundleFile netw) (bundleHash netw) w.
Proof.
  intros Hm Hs Hc. unfold Fetch, OS.MkdirAll. rewrite Hm.
  fold (bundleFilePath b version release netw). rewrite Hs.
  rewrite check_eta, Hc. reflexivity.
Qed.

(** Without a cache hit [Fetch] is the retrieve step and the second check. *)
Lemma Fetch_miss (b : BundleFetcher) (version : Z) (release netw : string) (w : world) :
  mkdir_err w (bundleBasePath b version release) = false ->
  cache_hit Sum256 b version release netw w = false ->
  Fetch b version release netw w
    = refetch release (bundleBasePath b version release) (bundleFile netw) (bundleHash netw) w.
Proof.
  intros Hm Hh. unfold cache_hit in Hh.
  destruct (OS.Stat (bundleFilePath b version release netw) w) as [[]|] eqn:Hs.
  - destruct (fst (check _ _ _ w)) as [e|[]] eqn:Hc; [| discriminate].
    now apply (Fetch_invalid b version release netw w e).
  - now apply Fetch_absent.
Qed.

Lemma Fetch_cases (b : BundleFetcher) (version : Z) (release netw : string) (w : world) :
  Fetch b version release netw w = (inl (ErrMkdir (bundleBasePath b version release)), w) \/
  Fetch b version release netw w = (inr (bundleFilePath b version release netw), w) \/
  (mkdir_err w (bundleBasePath b version release) = false /\
   cache_hit Sum256 b version release netw w = false /\
   Fetch b version release netw w
     = refetch release (bundleBasePath b version release) (bundleFile netw) (bundleHash netw) w).
Proof.
  destruct (mkdir_err w (bundleBasePath b version release)) eqn:Hm.
  - left. now apply Fetch_mkdir_err.
  - destruct (cache_hit Sum256 b version release netw w) eqn:Hh.
    + right. left. unfold cache_hit in Hh.
      destruct (OS.Stat (bundleFilePath b version release netw) w) as [[]|] eqn:Hs;
        [| discriminate].
      destruct (fst (check _ _ _ w)) as [e|[]] eqn:Hc; [discriminate |].
      now apply Fetch_hit.
    + right. right. auto using Fetch_miss.
Qed.

(** [Fetch] returns no other path than the artifact path. *)
Lemma Fetch_ok_inv (b : BundleFetcher) (version : Z) (release netw p : string) (w w' : world) :
  Fetch b version release netw w = (inr p, w') ->
  p = bundleFilePath b version release netw /\
  mkdir_err w (bundleBasePath b version release) = false /\
  fst (check (bundleBasePath b version release) (bundleFile netw) (bundleHash netw) w') = inr tt /\
  (w' = w \/
   fetch release (bundleBasePath b version release) (bundleFile netw) (bundleHash netw) w
     = (inr tt, w')).
Proof.
  unfold Fetch, OS.MkdirAll.
  destruct (mkdir_err w (bundleBasePath b version release)); [discriminate |].
  fold (bundleFilePath b version release netw).
  destruct (OS.Stat (bundleFilePath b version release netw) w).
  - rewrite check_eta.
    destruct (fst (check _ _ _ w)) as [c|[]] eqn:Hc.
    + intros H. apply refetch_ok_inv in H as (-> & Hf & Hk). auto.
    + intros [= <- <-]. auto.
  - intros H. apply refetch_ok_inv in H as (-> & Hf & Hk). auto.
Qed.

(** The artifact and the digest file never share a path. *)
Lemma file_hash_paths_distinct (base netw netw' : string) :
  Filepath.Join [base; bundleFile netw] <> Filepath.Join [base; bundleHash netw'].
Proof.
  intros E. apply (f_equal GoStrings.last_byte) in E. unfold bundleFile, bundleHash in E.
  rewrite (FilepathFacts.Join_last_byte base (bundleName netw) ".car") in E
    by (simpl; auto; lia).
  rewrite (FilepathFacts.Join_last_byte base (bundleName netw') ".sha256") in E
    by (simpl; auto; lia).
  discriminate E.
Qed.

Lemma NewBundleFetcher_inv (basepath : string) (w w1 : world) (b : BundleFetcher) :
  NewBundleFetcher basepath w = (inr b, w1) ->
  b = {| path := Filepath.Join [basepath; "builtin-actors"] |} /\ w1 = w /\
  mkdir_err w (Filepath.Join [basepath; "builtin-actors"]) = false.
Proof.
  unfold NewBundleFetcher, bind, or_fail, ret, fail, OS.MkdirAll.
  remember (Filepath.Join [basepath; "builtin-actors"]) as dir.
  destruct (mkdir_err w dir); [discriminate |].
  now intros [= <- <-].
Qed.

(** The artifact path is the join of the root and the four elements below
    it. *)
Lemma bundleFilePath_flat (root : string) (version : Z) (release netw : string) :
  bundleFilePath {| path := Filepath.Join [root; "builtin-actors"] |} version release netw
    = Filepath.Join [root; "builtin-actors"; "v" +:+ GoStrings.fmt_d version; release;
                     bundleFile netw].
Proof.
  assert (Hne : forall xs, Filepath.Join (root :: "builtin-actors" :: xs) <> EmptyString).
  { intros xs. destruct (String.eqb_spec root EmptyString) as [->|Hr].
    - now apply (FilepathFacts.Join_head_nonempty "builtin-actors").
    - now apply FilepathFacts.Join_head_nonempty. }
  unfold bundleFilePath, bundleBasePath. cbn [path].
  rewrite (FilepathFacts.Join_Join [root; "builtin-actors"]) by (apply Hne || discriminate).
  cbn [app].
  rewrite (FilepathFacts.Join_Join [root; "builtin-actors"; _; release])
    by (apply Hne || discriminate).
  reflexivity.
Qed.

(** The directory of the artifact path is the versioned directory. *)
Lemma Dir_bundleFilePath (b : BundleFetcher) (version : Z) (release netw : string) :
  GoStrings.free_of "/" netw = true ->
  Filepath.Dir (bundleFilePath b version release netw) = bundleBasePath b version release.
Proof.
  intros Hnet.
  assert (Hbase : bundleBasePath b version release <> EmptyString).
  { unfold bundleBasePath. cbn [Filepath.Join].
    destruct (String.eqb (path b) EmptyString); apply FilepathFacts.Clean_nonempty. }
  destruct (FilepathFacts.Join_is_Clean _ Hbase) as (a & Ha & Ea).
  unfold bundleFilePath, bundleBasePath.
  rewrite Ea. apply FilepathFacts.Dir_Join_elem; [exact Ha |].
  apply FilepathFacts.is_elem_long.
  - unfold bundleFile, bundleName. now rewrite !StringFacts.free_of_append, Hnet.
  - unfold bundleFile, bundleName. rewrite !StringFacts.length_append. simpl. lia.
Qed.

Lemma url_file_hash_distinct (release netw netw' : string) :
  bundleUrl release (bundleFile netw) <> bundleUrl release (bundleHash netw').
Proof.
  intros E. apply (f_equal GoStrings.last_byte) in E.
  unfold bundleUrl, bundleFile, bundleHash in E.
  rewrite <- !StringFacts.append_assoc in E.
  rewrite !StringFacts.last_byte_append in E by discriminate.
  discriminate E.
Qed.

Lemma bundleFile_free (netw : string) :
  GoStrings.free_of "/" netw = true -> GoStrings.free_of "/" (bundleFile netw) = true.
Proof.
  intros H. unfold bundleFile, bundleName.
  now rewrite !StringFacts.free_of_append, H.
Qed.

Lemma bundleHash_free (netw : string) :
  GoStrings.free_of "/" netw = true -> GoStrings.free_of "/" (bundleHash netw) = true.
Proof.
  intros H. unfold bundleHash, bundleName.
  now rewrite !StringFacts.free_of_append, H.
Qed.

Lemma bundleFile_long (netw : string) : (3 <= String.length (bundleFile netw))%nat.
Proof. unfold bundleFile, bundleName. rewrite !StringFacts.length_append. simpl. lia. Qed.

Lemma bundleHash_long (netw : string) : (3 <= String.length (bundleHash netw))%nat.
Proof. unfold bundleHash, bundleName. rewrite !StringFacts.length_append. simpl. lia. Qed.

Lemma bundleFile_inj (n1 n2 : string) : bundleFile n1 = bundleFile n2 -> n1 = n2.
Proof.
  unfold bundleFile, bundleName. intros H.
  apply StringFacts.append_inv_tail in H. now apply StringFacts.append_inv_head in H.
Qed.

Lemma bundleHash_inj (n1 n2 : string) : bundleHash n1 = bundleHash n2 -> n1 = n2.
Proof.
  unfold bundleHash, bundleName. intros H.
  apply StringFacts.append_inv_tail in H. now apply StringFacts.append_inv_head in H.
Qed.

(** A downloaded file reads back as the body when the file it replaced, if
    any, could be opened. *)
Lemma contents_downloaded (v w : world) (p : string) (body : list byte) :
  files v !! p = Some (downloaded w p body) -> openable w p = true ->
  contents v p = Some body.
Proof.
  intros Hv Ho. unfold contents, OS.Open. rewrite Hv.
  unfold downloaded, openable in *. cbn [open_err].
  destruct (files w !! p) as [f|]; [| reflexivity].
  apply negb_true_iff in Ho. now rewrite Ho.
Qed.

(** With an origin that serves a digest file and the artifact it is the
    digest of, and local files that can be written and opened, the retrieve
    step and the second check succeed. *)
Lemma refetch_valid_origin (release base netw : string) (w : world)
    (dbody abody : list byte) :
  let hashPath := Filepath.Join [base; bundleHash netw] in
  let filePath := Filepath.Join [base; bundleFile netw] in
  origin w (bundleUrl release (bundleHash netw)) = Resp StatusOK dbody false ->
  origin w (bundleUrl release (bundleFile netw)) = Resp StatusOK abody false ->
  create_err w hashPath = false -> create_err w filePath = false ->
  openable w hashPath = true -> openable w filePath = true ->
  parseDigest dbody = inr (Sum256 abody) ->
  exists w',
    refetch release base (bundleFile netw) (bundleHash netw) w = (inr filePath, w') /\
    contents w' hashPath = Some dbody /\ contents w' filePath = Some abody /\
    requests w' = requests w ++ [bundleUrl release (bundleHash netw);
                                 bundleUrl release (bundleFile netw)].
Proof.
  intros hashPath filePath Hd Ha Hcd Hca Hod Hoa Hparse.
  assert (Hne : hashPath <> filePath).
  { intros E. symmetry in E. now apply (file_hash_paths_distinct base netw netw). }
  pose (w1 := with_files (<[hashPath := downloaded w hashPath dbody]> (files w))
                         (with_request (bundleUrl release (bundleHash netw)) w)).
  pose (w2 := with_files (<[filePath := downloaded w1 filePath abody]> (files w1))
                         (with_request (bundleUrl release (bundleFile netw)) w1)).
  assert (Hfetch : fetch release base (bundleFile netw) (bundleHash netw) w = (inr tt, w2)).
  { rewrite (fetch_digest_ok release base (bundleFile netw) (bundleHash netw) w w1)
      by (apply (fetchURL_copy _ hashPath w dbody false Hd Hcd)).
    apply (fetchURL_copy _ filePath w1 abody false Ha Hca). }
  assert (L1 : files w2 !! hashPath = Some (downloaded w hashPath dbody)).
  { unfold w2, w1. cbn [files with_files with_request].
    rewrite lookup_insert_ne by (intros E; now apply Hne). apply lookup_insert_eq. }
  assert (L2 : files w2 !! filePath = Some (downloaded w filePath abody)).
  { unfold w2. cbn [files with_files with_request]. rewrite lookup_insert_eq.
    unfold downloaded, w1. cbn [files with_files with_request].
    now rewrite lookup_insert_ne by exact Hne. }
  pose proof (contents_downloaded w2 w hashPath dbody L1 Hod) as C1.
  pose proof (contents_downloaded w2 w filePath abody L2 Hoa) as C2.
  exists w2. split; [| split; [exact C1 | split; [exact C2 |]]].
  - apply refetch_ok; [exact Hfetch |].
    rewrite (check_readable base (bundleFile netw) (bundleHash netw) w2 dbody abody
               (Sum256 abody) C1 Hparse C2).
    now rewrite (proj2 (BytesFacts.Equal_eq _ _) eq_refl).
  - now apply fetch_ok_requests in Hfetch.
Qed.

End FetcherFacts.

(** * The claims *)

Section Claims.

Variable Sum256 : list byte -> list byte.

Abbreviation check := (check Sum256).
Abbreviation refetch := (refetch Sum256).
Abbreviation Fetch := (Fetch Sum256).

(** C1, as amended -- hash enforcement. With the digest file and the artifact readable
    and the digest file parsed to [expected]: [check] returns no error when
    [expected] is the SHA-256 digest of the artifact, as it is when the
    digest file holds that digest in hexadecimal, alone or followed by a
    space and a file name; when [expected] is the digest of some content
    [C] and the artifact on disk has another digest (a mutated [C], up to
    collisions of the hash), [check] fails with the hash mismatch; [check]
    accepts only when [expected] equals the computed digest over its full
    length of 32 bytes, and a proper prefix of the digest is refused with
    the hash mismatch. *)
Theorem check_hash_enforcement (base file hash : string) (w : world)
    (d expected artifact : list byte) :
  contents w (Filepath.Join [base; hash]) = Some d ->
  parseDigest d = inr expected ->
  contents w (Filepath.Join [base; file]) = Some artifact ->
  (forall m, length (Sum256 m) = Sha256.Size) ->
  (expected = Sum256 artifact -> fst (check base file hash w) = inr tt) /\
  (forall tail,
     d = list_byte_of_string (Hex.EncodeToString (Sum256 artifact) +:+ tail) ->
     tail = EmptyString \/ (exists t, tail = String " " t) ->
     fst (check base file hash w) = inr tt) /\
  (forall C, expected = Sum256 C -> Sum256 artifact <> Sum256 C ->
             fst (check base file hash w) = inl ErrHashMismatch) /\
  (fst (check base file hash w) = inr tt ->
   expected = Sum256 artifact /\ length expected = Sha256.Size) /\
  (forall rest, rest <> [] -> Sum256 artifact = expected ++ rest ->
                fst (check base file hash w) = inl ErrHashMismatch).
Proof.
  intros Hd Hp Ha Hsize.
  rewrite (check_readable Sum256 base file hash w d artifact expected Hd Hp Ha).
  repeat apply conj.
  - intros ->. now rewrite (proj2 (BytesFacts.Equal_eq _ _) eq_refl).
  - intros tail -> Htail. rewrite parseDigest_hex in Hp by exact Htail.
    injection Hp as <-. now rewrite (proj2 (BytesFacts.Equal_eq _ _) eq_refl).
  - intros C -> Hne. apply BytesFacts.Equal_neq in Hne. now rewrite Hne.
  - destruct (Bytes.Equal _ _) eqn:E; [| discriminate].
    intros _. apply BytesFacts.Equal_eq in E. split; [now symmetry |].
    now rewrite <- E, Hsize.
  - intros rest Hrest ->. now rewrite BytesFacts.Equal_proper_prefix.
Qed.

(** C7, as amended -- the token [check] decodes is the text of the digest
    file before its first space character. Only a space ends it: a tab or a
    newline belongs to the token and makes the decoding fail. What follows
    the first space is ignored. [check] fails with the decoding error
    exactly when that text does not decode as hexadecimal. *)
Theorem check_decodes_text_before_first_space (base file hash : string) (w : world)
    (d : list byte) :
  contents w (Filepath.Join [base; hash]) = Some d ->
  let token := GoStrings.before " " (string_of_list_byte d) in
  let hashPath := Filepath.Join [base; hash] in
  parseDigest d = Hex.DecodeString token /\
  (forall e, Hex.DecodeString token = inl e ->
             fst (check base file hash w) = inl (ErrDecode hashPath e)) /\
  (forall x, Hex.DecodeString token = inr x ->
             forall p e, fst (check base file hash w) <> inl (ErrDecode p e)) /\
  (GoStrings.free_of "009" token = false \/ GoStrings.free_of "010" token = false ->
   exists e, fst (check base file hash w) = inl (ErrDecode hashPath e)) /\
  (forall (w' : world) (d' : list byte),
     contents w' hashPath = Some d' ->
     GoStrings.before " " (string_of_list_byte d') = token ->
     files w' !! Filepath.Join [base; file] = files w !! Filepath.Join [base; file] ->
     fst (check base file hash w') = fst (check base file hash w)).
Proof.
  intros Hd token hashPath.
  assert (Hparse : forall b, parseDigest b
                     = Hex.DecodeString (GoStrings.before " " (string_of_list_byte b))).
  { intros b. unfold parseDigest. now rewrite StringFacts.hd_Split. }
  split; [apply Hparse |]. split; [| split; [| split]].
  - intros e He. apply (check_decode Sum256 base file hash w d e Hd).
    now rewrite Hparse.
  - intros x Hx p e. rewrite (check_parsed Sum256 base file hash w d Hd), Hparse.
    fold token. rewrite Hx.
    destruct (OS.Open _ w) as [f|]; [| discriminate].
    destruct (OS.ReadAll f) as [content|]; [| discriminate].
    destruct (Bytes.Equal _ _); discriminate.
  - intros Hws.
    assert (Hbad : exists e, Hex.DecodeString token = inl e).
    { destruct Hws as [H|H];
        [apply (HexFacts.Decode_invalid token "009") | apply (HexFacts.Decode_invalid token "010")];
        auto. }
    destruct Hbad as [e He]. exists e.
    apply (check_decode Sum256 base file hash w d e Hd). now rewrite Hparse.
  - intros w' d' Hd' Htok Hfiles.
    rewrite (check_parsed Sum256 base file hash w d Hd).
    rewrite (check_parsed Sum256 base file hash w' d' Hd').
    rewrite !Hparse, Htok. unfold OS.Open. now rewrite Hfiles.
Qed.

(** C3 -- cache hit and idempotence. When the directory step succeeds,
    the artifact exists and [check] accepts it, [Fetch] returns the artifact
    path and leaves the world as it was: nothing is requested from the
    origin and no file is written. Hence a [Fetch] that follows a successful
    one returns the same path and makes no request. *)
Theorem Fetch_cache_hit_idempotent (b : BundleFetcher) (version : Z) (release netw : string)
    (w : world) :
  (mkdir_err w (bundleBasePath b version release) = false ->
   OS.Stat (bundleFilePath b version release netw) w = Some tt ->
   fst (check (bundleBasePath b version release) (bundleFile netw) (bundleHash netw) w)
     = inr tt ->
   Fetch b version release netw w = (inr (bundleFilePath b version release netw), w)) /\
  (forall p w',
     Fetch b version release netw w = (inr p, w') ->
     Fetch b version release netw w' = (inr p, w') /\
     requests (snd (Fetch b version release netw w')) = requests w').
Proof.
  split; [apply Fetch_hit |].
  intros p w' H.
  assert (Hagain : Fetch b version release netw w' = (inr p, w')).
  { pose proof (Fetch_ok_inv Sum256 b version release netw p w w' H)
      as (-> & Hm & Hc & [-> | Hf]); [exact H |].
    apply Fetch_hit; [| | exact Hc].
    - pose proof (fetch_static release (bundleBasePath b version release)
                    (bundleFile netw) (bundleHash netw) w) as (Hs & _ & _).
      rewrite Hf in Hs. cbn in Hs. now rewrite Hs.
    - apply check_ok_inv in Hc as (d & content & _ & Ha & _).
      now apply contents_Stat in Ha. }
  now rewrite Hagain.
Qed.

(** C2 -- self-healing. When the artifact exists and [check] fails on it,
    for whatever reason, [Fetch] goes on as if the file were absent: its
    outcome is that of the retrieve step followed by the second check. If
    the retrieve step succeeds and the second check accepts, [Fetch]
    returns the artifact path, having asked the origin for both files; an
    error [Fetch] returns comes from the retrieve step or from the second
    check, never from the first one; and when the origin serves a digest
    file and the artifact it is the digest of, and the two local files can
    be written and opened, [Fetch] returns the path and leaves that
    artifact in place. *)
Theorem Fetch_self_healing (b : BundleFetcher) (version : Z) (release netw : string)
    (w : world) (e : error) :
  let base := bundleBasePath b version release in
  mkdir_err w base = false ->
  OS.Stat (bundleFilePath b version release netw) w = Some tt ->
  fst (check base (bundleFile netw) (bundleHash netw) w) = inl e ->
  Fetch b version release netw w
    = refetch release base (bundleFile netw) (bundleHash netw) w /\
  (forall w1,
     fetch release base (bundleFile netw) (bundleHash netw) w = (inr tt, w1) ->
     fst (check base (bundleFile netw) (bundleHash netw) w1) = inr tt ->
     Fetch b version release netw w = (inr (bundleFilePath b version release netw), w1) /\
     requests w1 = requests w ++ [bundleUrl release (bundleHash netw);
                                  bundleUrl release (bundleFile netw)]) /\
  (forall err w',
     Fetch b version release netw w = (inl err, w') ->
     (exists c, err = ErrFetchingBundle c /\
                fetch release base (bundleFile netw) (bundleHash netw) w = (inl c, w')) \/
     (exists c, err = ErrCheckingBundle c /\
                fetch release base (bundleFile netw) (bundleHash netw) w = (inr tt, w') /\
                fst (check base (bundleFile netw) (bundleHash netw) w') = inl c)) /\
  (forall dbody abody,
     origin w (bundleUrl release (bundleHash netw)) = Resp StatusOK dbody false ->
     origin w (bundleUrl release (bundleFile netw)) = Resp StatusOK abody false ->
     parseDigest dbody = inr (Sum256 abody) ->
     create_err w (bundleHashPath b version release netw) = false ->
     create_err w (bundleFilePath b version release netw) = false ->
     openable w (bundleHashPath b version release netw) = true ->
     openable w (bundleFilePath b version release netw) = true ->
     exists w',
       Fetch b version release netw w = (inr (bundleFilePath b version release netw), w') /\
       contents w' (bundleFilePath b version release netw) = Some abody /\
       requests w' = requests w ++ [bundleUrl release (bundleHash netw);
                                    bundleUrl release (bundleFile netw)]).
Proof.
  intros base Hm Hs Hc.
  pose proof (Fetch_invalid Sum256 b version release netw w e Hm Hs Hc) as HF.
  fold base in HF. split; [exact HF |]. rewrite HF. split; [| split].
  - intros w1 Hf Hk. split.
    + now apply refetch_ok.
    + now apply fetch_ok_requests in Hf.
  - intros err w'. unfold refetch.
    destruct (fetch release base (bundleFile netw) (bundleHash netw) w) as [[c|[]] w1].
    + intros [= <- <-]. left. eauto.
    + rewrite check_eta.
      destruct (fst (check base (bundleFile netw) (bundleHash netw) w1)) as [c|[]] eqn:Hk;
        [| discriminate].
      intros [= <- <-]. right. eauto.
  - intros dbody abody Hd Ha Hp Hcd Hca Hod Hoa.
    destruct (refetch_valid_origin Sum256 release base netw w dbody abody
                Hd Ha Hcd Hca Hod Hoa Hp) as (w' & Hr & _ & Hcont & Hreq).
    exists w'. auto.
Qed.

(** C4 -- failure of the digest download. The retrieve step asks for the
    digest file first and for the artifact after it, if at all. When the
    origin answers the digest request with a transport error or a status
    other than 200, the retrieve step fails with the error of that
    download, having logged that one request and written no file; a [Fetch]
    that reaches the retrieve step returns that error wrapped as the
    fetching error; and whatever branch [Fetch] takes, it writes no file
    and never asks for the artifact. *)
Theorem Fetch_digest_download_failure (b : BundleFetcher) (version : Z)
    (release netw : string) (w : world) :
  let base := bundleBasePath b version release in
  let hashUrl := bundleUrl release (bundleHash netw) in
  let fileUrl := bundleUrl release (bundleFile netw) in
  (origin w hashUrl = GetErr \/
   exists st body br, origin w hashUrl = Resp st body br /\ st <> StatusOK) ->
  (forall v, exists rest,
     requests (snd (fetch release base (bundleFile netw) (bundleHash netw) v))
       = requests v ++ hashUrl :: rest /\
     (rest = [] \/ rest = [fileUrl])) /\
  (exists c,
     (c = ErrGet hashUrl \/ exists st, st <> StatusOK /\ c = ErrStatus hashUrl st) /\
     fetch release base (bundleFile netw) (bundleHash netw) w
       = (inl c, with_request hashUrl w) /\
     (mkdir_err w base = false ->
      cache_hit Sum256 b version release netw w = false ->
      Fetch b version release netw w = (inl (ErrFetchingBundle c), with_request hashUrl w))) /\
  (forall r w',
     Fetch b version release netw w = (r, w') ->
     files w' = files w /\
     (requests w' = requests w \/ requests w' = requests w ++ [hashUrl])).
Proof.
  intros base hashUrl fileUrl Horigin.
  assert (Hfetch : exists c,
            (c = ErrGet hashUrl \/ exists st, st <> StatusOK /\ c = ErrStatus hashUrl st) /\
            fetch release base (bundleFile netw) (bundleHash netw) w
              = (inl c, with_request hashUrl w)).
  { destruct Horigin as [Hg | (st & body & br & Hr & Hst)].
    - exists (ErrGet hashUrl). split; [now left |].
      apply fetch_digest_fail. now apply fetchURL_GetErr.
    - exists (ErrStatus hashUrl st). split; [right; eauto |].
      apply fetch_digest_fail. now apply (fetchURL_status _ _ _ st body br). }
  destruct Hfetch as (c & Hc & Hf).
  split; [intros v; apply fetch_requests |]. split.
  - exists c. split; [exact Hc |]. split; [exact Hf |].
    intros Hm Hh. rewrite (Fetch_miss Sum256 b version release netw w Hm Hh).
    now apply refetch_fetch_err.
  - intros r w' HF.
    destruct (Fetch_cases Sum256 b version release netw w) as [H | [H | (Hm & Hh & H)]];
      rewrite H in HF.
    + injection HF as <- <-. auto.
    + injection HF as <- <-. auto.
    + fold base in HF. rewrite (refetch_fetch_err Sum256 _ _ _ _ _ _ _ Hf) in HF.
      injection HF as <- <-. cbn. auto.
Qed.

(** C5 -- failure of the second check. When [Fetch] reaches the retrieve
    step, the retrieve step succeeds and [check] fails on what it wrote,
    [Fetch] returns that failure wrapped as the checking error, and no
    path. The world is the one the retrieve step left: the origin was asked
    for the two files once, and nothing is fetched again. *)
Theorem Fetch_check_failure_after_fetch (b : BundleFetcher) (version : Z)
    (release netw : string) (w w1 : world) (e : error) :
  let base := bundleBasePath b version release in
  mkdir_err w base = false ->
  cache_hit Sum256 b version release netw w = false ->
  fetch release base (bundleFile netw) (bundleHash netw) w = (inr tt, w1) ->
  fst (check base (bundleFile netw) (bundleHash netw) w1) = inl e ->
  Fetch b version release netw w = (inl (ErrCheckingBundle e), w1) /\
  requests w1 = requests w ++ [bundleUrl release (bundleHash netw);
                               bundleUrl release (bundleFile netw)].
Proof.
  intros base Hm Hh Hf Hc. split.
  - rewrite (Fetch_miss Sum256 b version release netw w Hm Hh).
    now apply refetch_check_err.
  - now apply fetch_ok_requests in Hf.
Qed.

(** C8, as amended -- file system errors. The failure to make the
    directory, the failure of a local write in the retrieve step (such as
    the digest file that cannot be opened for writing) and any failure of
    the check that follows the retrieve step are returned to the caller.
    The failure of the check on an artifact found in place is not: when
    that artifact cannot be opened or read, [check] fails with the opening
    or the hashing error and [Fetch] drops it and fetches the files
    again. *)
Theorem Fetch_filesystem_errors (b : BundleFetcher) (version : Z) (release netw : string)
    (w : world) :
  let base := bundleBasePath b version release in
  let filePath := bundleFilePath b version release netw in
  let hashPath := bundleHashPath b version release netw in
  let hashUrl := bundleUrl release (bundleHash netw) in
  (mkdir_err w base = true ->
   Fetch b version release netw w = (inl (ErrMkdir base), w)) /\
  (mkdir_err w base = false ->
   cache_hit Sum256 b version release netw w = false ->
   (forall c w1,
      fetch release base (bundleFile netw) (bundleHash netw) w = (inl c, w1) ->
      Fetch b version release netw w = (inl (ErrFetchingBundle c), w1)) /\
   (forall body br,
      origin w hashUrl = Resp StatusOK body br -> create_err w hashPath = true ->
      Fetch b version release netw w
        = (inl (ErrFetchingBundle (ErrOpenWrite hashPath)), with_request hashUrl w)) /\
   (forall c w1,
      fetch release base (bundleFile netw) (bundleHash netw) w = (inr tt, w1) ->
      fst (check base (bundleFile netw) (bundleHash netw) w1) = inl c ->
      Fetch b version release netw w = (inl (ErrCheckingBundle c), w1))) /\
  (mkdir_err w base = false ->
   forall d expected f,
     contents w hashPath = Some d -> parseDigest d = inr expected ->
     files w !! filePath = Some f ->
     open_err f = true \/ read_err f = true ->
     (fst (check base (bundleFile netw) (bundleHash netw) w) = inl (ErrOpen filePath) \/
      fst (check base (bundleFile netw) (bundleHash netw) w) = inl (ErrDigest filePath)) /\
     Fetch b version release netw w
       = refetch release base (bundleFile netw) (bundleHash netw) w).
Proof.
  intros base filePath hashPath hashUrl.
  split; [apply Fetch_mkdir_err |]. split.
  - intros Hm Hh. rewrite (Fetch_miss Sum256 b version release netw w Hm Hh). fold base.
    split; [intros c w1; apply refetch_fetch_err |].
    split; [| intros c w1; apply refetch_check_err].
    intros body br Ho Hc. apply refetch_fetch_err, fetch_digest_fail.
    now apply (fetchURL_create_err _ _ _ body br).
  - intros Hm d expected f Hd Hp Hf Herr.
    assert (Hk : fst (check base (bundleFile netw) (bundleHash netw) w)
                   = if open_err f then inl (ErrOpen filePath) else inl (ErrDigest filePath)).
    { rewrite (check_parsed Sum256 base (bundleFile netw) (bundleHash netw) w d Hd), Hp.
      unfold OS.Open.
      change (Filepath.Join [base; bundleFile netw]) with filePath. rewrite Hf.
      destruct (open_err f) eqn:Ho; [reflexivity |].
      unfold OS.ReadAll. destruct Herr as [Hx|Hx]; [discriminate | now rewrite Hx]. }
    split; [rewrite Hk; destruct (open_err f); auto |].
    apply (Fetch_invalid Sum256 b version release netw w
             (if open_err f then ErrOpen filePath else ErrDigest filePath) Hm).
    + unfold OS.Stat. change (bundleFilePath b version release netw) with filePath.
      now rewrite Hf.
    + fold base. rewrite Hk. now destruct (open_err f).
Qed.

(** C10, as amended -- failure of the artifact download after the digest
    download. [Fetch] returns the fetching error and the digest file holds
    the digest just downloaded. The artifact file is as it was before the
    call when the download fails before the file is written: a transport
    error, a status other than 200, or the file that cannot be opened for
    writing. When the download fails while the body is copied, the artifact
    file has been emptied and holds the bytes copied before the failure. *)
Theorem Fetch_artifact_download_failure (b : BundleFetcher) (version : Z)
    (release netw : string) (w : world) (dbody : list byte) :
  let base := bundleBasePath b version release in
  let filePath := bundleFilePath b version release netw in
  let hashPath := bundleHashPath b version release netw in
  let hashUrl := bundleUrl release (bundleHash netw) in
  let fileUrl := bundleUrl release (bundleFile netw) in
  mkdir_err w base = false ->
  cache_hit Sum256 b version release netw w = false ->
  origin w hashUrl = Resp StatusOK dbody false ->
  create_err w hashPath = false ->
  (origin w fileUrl = GetErr \/
   (exists st body br, origin w fileUrl = Resp st body br /\ st <> StatusOK) \/
   (create_err w filePath = true /\
    exists body br, origin w fileUrl = Resp StatusOK body br) ->
   exists c w',
     Fetch b version release netw w = (inl (ErrFetchingBundle c), w') /\
     files w' !! hashPath = Some (downloaded w hashPath dbody) /\
     files w' !! filePath = files w !! filePath) /\
  (forall abody,
     origin w fileUrl = Resp StatusOK abody true -> create_err w filePath = false ->
     exists w',
       Fetch b version release netw w = (inl (ErrFetchingBundle (ErrWrite filePath)), w') /\
       files w' !! hashPath = Some (downloaded w hashPath dbody) /\
       files w' !! filePath = Some (downloaded w filePath abody)).
Proof.
  intros base filePath hashPath hashUrl fileUrl Hm Hh Hdig Hcreate.
  assert (Hne : hashPath <> filePath).
  { intros E. now apply (file_hash_paths_distinct base netw netw). }
  set (w1 := with_files (<[hashPath := downloaded w hashPath dbody]> (files w))
                        (with_request hashUrl w)).
  assert (Hfetch : fetch release base (bundleFile netw) (bundleHash netw) w
                     = fetchURL fileUrl filePath w1).
  { apply fetch_digest_ok. apply (fetchURL_copy hashUrl hashPath w dbody false Hdig Hcreate). }
  rewrite (Fetch_miss Sum256 b version release netw w Hm Hh). fold base.
  assert (Hearly : forall c,
            fetchURL fileUrl filePath w1 = (inl c, with_request fileUrl w1) ->
            exists c0 w',
              refetch release base (bundleFile netw) (bundleHash netw) w
                = (inl (ErrFetchingBundle c0), w') /\
              files w' !! hashPath = Some (downloaded w hashPath dbody) /\
              files w' !! filePath = files w !! filePath).
  { intros c Hc. exists c, (with_request fileUrl w1). split.
    - apply refetch_fetch_err. now rewrite Hfetch.
    - cbn. rewrite lookup_insert_eq.
      now rewrite lookup_insert_ne by exact Hne. }
  split.
  - intros [Hg | [(st & body & br & Hr & Hst) | (Hc & body & br & Hr)]].
    + apply (Hearly (ErrGet fileUrl)). now apply fetchURL_GetErr.
    + apply (Hearly (ErrStatus fileUrl st)). now apply (fetchURL_status _ _ _ st body br).
    + apply (Hearly (ErrOpenWrite filePath)). now apply (fetchURL_create_err _ _ _ body br).
  - intros abody Hr Hc.
    pose proof (fetchURL_copy fileUrl filePath w1 abody true Hr Hc) as Hcopy.
    eexists. split; [apply refetch_fetch_err; rewrite Hfetch; exact Hcopy |].
    cbn. split.
    + rewrite lookup_insert_ne by (intros E; now apply Hne).
      now rewrite lookup_insert_eq.
    + rewrite lookup_insert_eq. unfold downloaded. cbn.
      now rewrite lookup_insert_ne by exact Hne.
Qed.

(** C6, as amended -- two networks. Two [Fetch] calls for one version and
    one release and two network names without a slash put their artifacts
    in one directory, the versioned directory of that version and release,
    under two file names: the paths they return differ, the digest paths
    differ, and no artifact path is a digest path. *)
Theorem Fetch_networks_distinct_files (b : BundleFetcher) (version : Z) (release : string)
    (n1 n2 p1 p2 : string) (w1 w1' w2 w2' : world) :
  n1 <> n2 ->
  GoStrings.free_of "/" n1 = true -> GoStrings.free_of "/" n2 = true ->
  Fetch b version release n1 w1 = (inr p1, w1') ->
  Fetch b version release n2 w2 = (inr p2, w2') ->
  p1 <> p2 /\
  Filepath.Dir p1 = bundleBasePath b version release /\
  Filepath.Dir p2 = bundleBasePath b version release /\
  bundleHashPath b version release n1 <> bundleHashPath b version release n2 /\
  p1 <> bundleHashPath b version release n2 /\
  p2 <> bundleHashPath b version release n1.
Proof.
  intros Hn F1 F2 H1 H2.
  apply Fetch_ok_inv in H1 as (-> & _). apply Fetch_ok_inv in H2 as (-> & _).
  repeat apply conj.
  - unfold bundleFilePath. intros E. apply FilepathFacts.Join_file_inj in E;
      auto using bundleFile_free, bundleFile_long, bundleFile_inj.
  - now apply Dir_bundleFilePath.
  - now apply Dir_bundleFilePath.
  - unfold bundleHashPath. intros E. apply FilepathFacts.Join_file_inj in E;
      auto using bundleHash_free, bundleHash_long, bundleHash_inj.
  - apply file_hash_paths_distinct.
  - apply file_hash_paths_distinct.
Qed.

(** C9 -- the layout of the artifact path. The path a successful [Fetch]
    returns, on the cache hit as on the fetch branch, is the join of the
    root, [builtin-actors], [v<version>], the release and
    [builtin-actors-<network>.car]. For a root directory in clean form, a
    release that is a plain path element and a network name without a
    slash, that is the root followed by
    [/builtin-actors/v<version>/<release>/builtin-actors-<network>.car],
    letter for letter. For the root [/tmp/cache], version 8, release
    [v8.0.0] and network [mainnet] it is
    [/tmp/cache/builtin-actors/v8/v8.0.0/builtin-actors-mainnet.car]. *)
Theorem Fetch_path_layout :
  (forall (root : string) (version : Z) (release netw : string)
          (w w1 w2 : world) (b : BundleFetcher) (p : string),
     NewBundleFetcher root w = (inr b, w1) ->
     Fetch b version release netw w1 = (inr p, w2) ->
     p = Filepath.Join [root; "builtin-actors"; "v" +:+ GoStrings.fmt_d version; release;
                        "builtin-actors-" +:+ netw +:+ ".car"] /\
     (Filepath.clean_dir root ->
      Filepath.is_elem release = true ->
      GoStrings.free_of "/" netw = true ->
      p = root +:+ "/builtin-actors/v" +:+ GoStrings.fmt_d version +:+ "/" +:+ release
               +:+ "/builtin-actors-" +:+ netw +:+ ".car")) /\
  (forall (w w1 w2 : world) (b : BundleFetcher) (p : string),
     NewBundleFetcher "/tmp/cache" w = (inr b, w1) ->
     Fetch b 8 "v8.0.0" "mainnet" w1 = (inr p, w2) ->
     p = "/tmp/cache/builtin-actors/v8/v8.0.0/builtin-actors-mainnet.car").
Proof.
  assert (Hgen : forall (root : string) (version : Z) (release netw : string)
                        (w w1 w2 : world) (b : BundleFetcher) (p : string),
     NewBundleFetcher root w = (inr b, w1) ->
     Fetch b version release netw w1 = (inr p, w2) ->
     p = Filepath.Join [root; "builtin-actors"; "v" +:+ GoStrings.fmt_d version; release;
                        "builtin-actors-" +:+ netw +:+ ".car"] /\
     (Filepath.clean_dir root ->
      Filepath.is_elem release = true ->
      GoStrings.free_of "/" netw = true ->
      p = root +:+ "/builtin-actors/v" +:+ GoStrings.fmt_d version +:+ "/" +:+ release
               +:+ "/builtin-actors-" +:+ netw +:+ ".car")).
  { intros root version release netw w w1 w2 b p Hnew HF.
    apply Fetch_ok_inv in HF as (-> & _).
    apply NewBundleFetcher_inv in Hnew as (-> & _ & _).
    split; [now rewrite bundleFilePath_flat; unfold bundleFile, bundleName;
            rewrite StringFacts.append_assoc |].
    intros Hroot Hrel Hnet.
    unfold bundleFilePath, bundleBasePath. cbn [path].
    assert (Hv : Filepath.is_elem ("v" +:+ GoStrings.fmt_d version) = true).
    { unfold Filepath.is_elem.
      change (GoStrings.free_of "/" ("v" +:+ GoStrings.fmt_d version))
        with (GoStrings.free_of "/" (GoStrings.fmt_d version)).
      now rewrite StringFacts.free_of_fmt_d. }
    assert (Hfile : Filepath.is_elem (bundleFile netw) = true).
    { apply FilepathFacts.is_elem_long; auto using bundleFile_free, bundleFile_long. }
    rewrite (FilepathFacts.Join2_clean root "builtin-actors") by auto.
    assert (Hdir : Filepath.clean_dir (root +:+ "/" +:+ "builtin-actors")).
    { now apply FilepathFacts.clean_dir_extend. }
    rewrite FilepathFacts.Join3_clean by auto.
    rewrite FilepathFacts.Join2_clean.
    - unfold bundleFile, bundleName.
      now rewrite !StringFacts.append_assoc.
    - rewrite <- (StringFacts.append_assoc "/" ("v" +:+ GoStrings.fmt_d version)).
      rewrite <- (StringFacts.append_assoc (root +:+ "/" +:+ "builtin-actors")).
      auto using FilepathFacts.clean_dir_extend.
    - exact Hfile. }
  split; [exact Hgen |].
  intros w w1 w2 b p Hnew HF.
  destruct (Hgen "/tmp/cache" 8%Z "v8.0.0" "mainnet" w w1 w2 b p Hnew HF) as (-> & _).
  reflexivity.
Qed.

End Claims.

(** * The claims on concrete worlds *)

Module Witness.
Import Scenario.

Abbreviation Fetch8 := (Fetch Sha256.Sum256 fetcher 8 "v8.0.0").
Abbreviation base8 := (bundleBasePath fetcher 8 "v8.0.0").
Abbreviation check8 :=
  (check Sha256.Sum256 base8 (bundleFile "mainnet") (bundleHash "mainnet")).
Abbreviation fetch8 :=
  (fetch "v8.0.0" base8 (bundleFile "mainnet") (bundleHash "mainnet")).

Ltac run := vm_compute; reflexivity.

(** C1 on the valid and on the mutated cache. *)
Lemma check_hash_enforcement_witness :
  fst (check8 valid_cache) = inr tt /\ fst (check8 mutated_cache) = inl ErrHashMismatch.
Proof.
  split.
  - refine (proj1 (check_hash_enforcement Sha256.Sum256 base8 _ _ valid_cache
                     (digest_file abc "builtin-actors-mainnet.car")
                     (Sha256.Sum256 abc) abc _ _ _ Sha256Facts.length_Sum256) eq_refl);
      run.
  - refine (proj1 (proj2 (proj2 (check_hash_enforcement Sha256.Sum256 base8 _ _
                                   mutated_cache
                                   (digest_file abc "builtin-actors-mainnet.car")
                                   (Sha256.Sum256 abc) abd _ _ _
                                   Sha256Facts.length_Sum256)))
                  abc eq_refl _);
      try run.
    vm_compute. discriminate.
Defined.

(** C2 on the mutated cache: the mismatch is not returned, both files are
    fetched and the path is returned. *)
Lemma Fetch_self_healing_witness :
  Fetch8 "mainnet" mutated_cache
    = (inr (bundleFilePath fetcher 8 "v8.0.0" "mainnet"), retrieved mutated_cache) /\
  requests (retrieved mutated_cache)
    = requests mutated_cache ++ [bundleUrl "v8.0.0" (bundleHash "mainnet");
                                 bundleUrl "v8.0.0" (bundleFile "mainnet")].
Proof.
  refine (proj1 (proj2 (Fetch_self_healing Sha256.Sum256 fetcher 8 "v8.0.0" "mainnet"
                          mutated_cache ErrHashMismatch eq_refl _ _))
                (retrieved mutated_cache) _ _);
    run.
Defined.

(** C3 on the empty cache: the second call returns the same path and leaves
    the world of the first. *)
Lemma Fetch_cache_hit_idempotent_witness :
  Fetch8 "mainnet" (retrieved empty_cache)
    = (inr (bundleFilePath fetcher 8 "v8.0.0" "mainnet"), retrieved empty_cache) /\
  requests (snd (Fetch8 "mainnet" (retrieved empty_cache))) = requests (retrieved empty_cache).
Proof.
  refine (proj2 (Fetch_cache_hit_idempotent Sha256.Sum256 fetcher 8 "v8.0.0"
                   "mainnet" empty_cache) _ (retrieved empty_cache) _).
  run.
Defined.

(** C4 where the release is missing: one request, the status error, no
    file. *)
Lemma Fetch_digest_download_failure_witness :
  exists c,
    Fetch8 "mainnet" no_release
      = (inl (ErrFetchingBundle c),
         with_request (bundleUrl "v8.0.0" (bundleHash "mainnet")) no_release).
Proof.
  assert (Ho : origin no_release (bundleUrl "v8.0.0" (bundleHash "mainnet")) = GetErr \/
               exists st body br,
                 origin no_release (bundleUrl "v8.0.0" (bundleHash "mainnet"))
                   = Resp st body br /\ st <> StatusOK).
  { right. exists 404%Z, [], false. split; [reflexivity | discriminate]. }
  destruct (Fetch_digest_download_failure Sha256.Sum256 fetcher 8 "v8.0.0" "mainnet"
              no_release Ho) as (_ & (c & _ & _ & HF) & _).
  exists c. apply HF; run.
Defined.

(** C5 where the origin serves an artifact that does not match. *)
Lemma Fetch_check_failure_after_fetch_witness :
  Fetch8 "mainnet" corrupt_origin
    = (inl (ErrCheckingBundle ErrHashMismatch), retrieved corrupt_origin) /\
  requests (retrieved corrupt_origin)
    = requests corrupt_origin ++ [bundleUrl "v8.0.0" (bundleHash "mainnet");
                                  bundleUrl "v8.0.0" (bundleFile "mainnet")].
Proof.
  refine (Fetch_check_failure_after_fetch Sha256.Sum256 fetcher 8 "v8.0.0" "mainnet"
            corrupt_origin (retrieved corrupt_origin) ErrHashMismatch eq_refl _ _ _);
    run.
Defined.

(** C6 for mainnet and calibrationnet. *)
Lemma Fetch_networks_distinct_files_witness :
  car <> car_calibnet /\
  Filepath.Dir car = bundleBasePath fetcher 8 "v8.0.0" /\
  Filepath.Dir car_calibnet = bundleBasePath fetcher 8 "v8.0.0".
Proof.
  destruct (Fetch_networks_distinct_files Sha256.Sum256 fetcher 8 "v8.0.0"
              "mainnet" "calibrationnet" car car_calibnet
              empty_cache (snd (Fetch8 "mainnet" empty_cache))
              empty_cache (snd (Fetch8 "calibrationnet" empty_cache)))
    as (Hne & Hdir1 & Hdir2 & _); try run; try discriminate.
  repeat apply conj; assumption.
Defined.

(** C7 on the digest file that ends at the newline: the newline belongs to
    the token and the decoding fails. *)
Lemma check_decodes_text_before_first_space_witness :
  exists e,
    fst (check8 bare_digest_cache)
      = inl (ErrDecode (Filepath.Join [base8; bundleHash "mainnet"]) e).
Proof.
  refine (proj1 (proj2 (proj2 (proj2
            (check_decodes_text_before_first_space Sha256.Sum256 base8
               (bundleFile "mainnet") (bundleHash "mainnet") bare_digest_cache
               (bare_digest_file abc) _)))) _).
  - run.
  - right. run.
Defined.

(** C8 on the artifact that fails to read: the hashing error of the first
    check gives way to the retrieve step. *)
Lemma Fetch_filesystem_errors_witness :
  (fst (check8 unreadable_cache) = inl (ErrOpen (bundleFilePath fetcher 8 "v8.0.0" "mainnet")) \/
   fst (check8 unreadable_cache) = inl (ErrDigest (bundleFilePath fetcher 8 "v8.0.0" "mainnet"))) /\
  Fetch8 "mainnet" unreadable_cache
    = refetch Sha256.Sum256 "v8.0.0" base8 (bundleFile "mainnet") (bundleHash "mainnet")
        unreadable_cache.
Proof.
  refine (proj2 (proj2 (Fetch_filesystem_errors Sha256.Sum256 fetcher 8 "v8.0.0" "mainnet"
                          unreadable_cache))
                eq_refl (digest_file abc "builtin-actors-mainnet.car") (Sha256.Sum256 abc)
                (File abc false true) _ _ _ (or_intror eq_refl));
    run.
Defined.

(** C9 on the empty cache, where the files are fetched, and on the valid
    one, where they are not. *)
Lemma Fetch_path_layout_witness :
  car = "/tmp/cache" +:+ "/builtin-actors/v" +:+ GoStrings.fmt_d 8 +:+ "/" +:+ "v8.0.0"
          +:+ "/builtin-actors-" +:+ "mainnet" +:+ ".car" /\
  car = "/tmp/cache/builtin-actors/v8/v8.0.0/builtin-actors-mainnet.car".
Proof.
  assert (Hroot : Filepath.clean_dir "/tmp/cache")
    by (split; [reflexivity | split; discriminate]).
  assert (N1 : NewBundleFetcher "/tmp/cache" empty_cache = (inr fetcher, empty_cache))
    by reflexivity.
  assert (N2 : NewBundleFetcher "/tmp/cache" valid_cache = (inr fetcher, valid_cache))
    by reflexivity.
  assert (H1 : Fetch8 "mainnet" empty_cache = (inr car, retrieved empty_cache)) by run.
  assert (H2 : Fetch8 "mainnet" valid_cache = (inr car, valid_cache)) by run.
  split.
  - exact (proj2 (proj1 (Fetch_path_layout Sha256.Sum256) "/tmp/cache" 8%Z "v8.0.0"
                    "mainnet" empty_cache empty_cache _ fetcher car N1 H1)
                 Hroot eq_refl eq_refl).
  - exact (proj2 (Fetch_path_layout Sha256.Sum256)
             valid_cache valid_cache _ fetcher car N2 H2).
Defined.

(** C10 on the download that breaks: the digest file is the new one and the
    artifact holds the two bytes that arrived. *)
Lemma Fetch_artifact_download_failure_witness :
  exists w',
    Fetch8 "mainnet" broken_download
      = (inl (ErrFetchingBundle (ErrWrite (bundleFilePath fetcher 8 "v8.0.0" "mainnet"))), w') /\
    files w' !! bundleHashPath fetcher 8 "v8.0.0" "mainnet"
      = Some (downloaded broken_download (bundleHashPath fetcher 8 "v8.0.0" "mainnet")
                (digest_file abc "builtin-actors-mainnet.car")) /\
    files w' !! bundleFilePath fetcher 8 "v8.0.0" "mainnet"
      = Some (downloaded broken_download (bundleFilePath fetcher 8 "v8.0.0" "mainnet") ab).
Proof.
  refine (proj2 (Fetch_artifact_download_failure Sha256.Sum256 fetcher 8 "v8.0.0" "mainnet"
                   broken_download (digest_file abc "builtin-actors-mainnet.car")
                   eq_refl _ _ eq_refl) ab _ eq_refl);
    run.
Defined.

End Witness.

(** * Digests collide *)

Module CollisionFacts.
Import stdpp.finite.

#[local] Instance byte_eq_dec : EqDecision byte := Byte.byte_eq_dec.

#[local] Instance of_bits_inj : Inj (=) (=) Byte.of_bits.
Proof.
  intros x y E. rewrite <- (Byte.to_bits_of_bits x), <- (Byte.to_bits_of_bits y).
  now rewrite E.
Qed.

#[local] Instance of_bits_surj : Surj (=) Byte.of_bits.
Proof. intros b. exists (Byte.to_bits b). apply Byte.of_bits_to_bits. Qed.

(** There are 256 bytes. *)
#[local] Instance byte_finite : Finite byte := bijective_finite Byte.of_bits.

Lemma two_bytes : 1 < card byte.
Proof. vm_compute. lia. Qed.

(** A function from the byte sequences into those of one length is not
    injective, by counting: there are more sequences of [n + 1] bytes than
    of [n]. *)
Lemma fixed_length_collision (n : nat) (h : list byte -> list byte) :
  (forall m, length (h m) = n) ->
  exists C C' : list byte,
    C <> C' /\ length C = S n /\ length C' = S n /\ h C = h C'.
Proof.
  intros Hlen.
  pose (f := fun x : { l : list byte | length l = S n } =>
               (h (`x) ↾ Hlen (`x) : { l : list byte | length l = n })).
  destruct (finite_pigeonhole f) as (x1 & x2 & Hne & Heq).
  { rewrite !list_card. apply Nat.pow_lt_mono_r; [apply two_bytes | apply Nat.lt_succ_diag_r]. }
  exists (`x1), (`x2).
  split; [| split; [exact (proj2_sig x1) | split; [exact (proj2_sig x2) |]]].
  - intros E. apply Hne. now apply (sig_eq_pi _).
  - apply (f_equal proj1_sig) in Heq. exact Heq.
Qed.

End CollisionFacts.

(** * Where the spec and the code part *)

Module Counterexample.
Import Scenario.

Abbreviation Fetch8 := (Fetch Sha256.Sum256 fetcher 8 "v8.0.0").
Abbreviation check8 :=
  (check Sha256.Sum256 dir (bundleFile "mainnet") (bundleHash "mainnet")).

(** C6, as stated: the artifacts of mainnet and of calibrationnet are put in
    one directory, not in disjoint ones; and two network names, one of them
    with slashes, get one and the same artifact path. *)
Lemma networks_share_directory :
  fst (Fetch8 "mainnet" empty_cache) = inr car /\
  fst (Fetch8 "calibrationnet" empty_cache) = inr car_calibnet /\
  Filepath.Dir car = dir /\
  Filepath.Dir car_calibnet = dir /\
  "a" <> "x/../builtin-actors-a" /\
  bundleFilePath fetcher 8 "v8.0.0" "a"
    = bundleFilePath fetcher 8 "v8.0.0" "x/../builtin-actors-a".
Proof. repeat apply conj; try (vm_compute; reflexivity). discriminate. Qed.

(** C7, as stated: the digest file holds the digest of the artifact and a
    newline. Its first whitespace-delimited token decodes to that digest,
    yet [check] takes the newline into the token and fails to decode. *)
Lemma newline_does_not_end_token :
  contents bare_digest_cache sha = Some (bare_digest_file abc) /\
  contents bare_digest_cache car = Some abc /\
  Hex.DecodeString (Spec.first_token (string_of_list_byte (bare_digest_file abc)))
    = inr (Sha256.Sum256 abc) /\
  fst (check8 bare_digest_cache) = inl (ErrDecode sha (Hex.InvalidByteError "010")).
Proof. repeat apply conj; vm_compute; reflexivity. Qed.

(** C8, as stated: the artifact in place fails to read while it is hashed;
    [Fetch] does not return that error, it fetches both files and returns
    the path. *)
Lemma unreadable_artifact_absorbed :
  fst (check8 unreadable_cache) = inl (ErrDigest car) /\
  fst (Fetch8 "mainnet" unreadable_cache) = inr car /\
  requests (snd (Fetch8 "mainnet" unreadable_cache)) = [sha_url; car_url].
Proof. repeat apply conj; vm_compute; reflexivity. Qed.

(** C10, as stated: the digest download succeeds and the artifact download
    breaks while its body is copied; [Fetch] returns an error and the
    artifact file is not what it was: it holds the two bytes copied. *)
Lemma broken_download_rewrites_artifact :
  files broken_download !! car = Some (plain abc) /\
  fst (Fetch8 "mainnet" broken_download) = inl (ErrFetchingBundle (ErrWrite car)) /\
  files (snd (Fetch8 "mainnet" broken_download)) !! sha
    = Some (plain (digest_file abc "builtin-actors-mainnet.car")) /\
  files (snd (Fetch8 "mainnet" broken_download)) !! car = Some (plain ab).
Proof. repeat apply conj; vm_compute; reflexivity. Qed.

(** C1, as stated: the digest file holds the digest of [C] in hexadecimal,
    the artifact is another content [C'] of the same length, and [check]
    returns no error. Such a pair exists by counting: SHA-256 sends the
    sequences of 33 bytes to sequences of 32. *)
Lemma colliding_mutation_accepted :
  exists C C' : list byte,
    C <> C' /\ length C = length C' /\
    fst (check8 (machine [(car, plain C');
                          (sha, plain (list_byte_of_string
                                         (Hex.EncodeToString (Sha256.Sum256 C))))]
                         (serve release_v8)))
    = inr tt.
Proof.
  destruct (CollisionFacts.fixed_length_collision Sha256.Size Sha256.Sum256
              Sha256Facts.length_Sum256) as (C & C' & Hne & H1 & H2 & Heq).
  exists C, C'. split; [exact Hne |]. split; [congruence |].
  set (d := list_byte_of_string (Hex.EncodeToString (Sha256.Sum256 C))).
  set (w := machine [(car, plain C'); (sha, plain d)] (serve release_v8)).
  assert (Ecar : Filepath.Join [dir; bundleFile "mainnet"] = car) by (vm_compute; reflexivity).
  assert (Esha : Filepath.Join [dir; bundleHash "mainnet"] = sha) by (vm_compute; reflexivity).
  assert (Hd : contents w (Filepath.Join [dir; bundleHash "mainnet"]) = Some d).
  { rewrite Esha. unfold contents, OS.Open, w, machine. cbn [files list_to_map foldr fst snd].
    rewrite lookup_insert_ne by discriminate. now rewrite lookup_insert_eq. }
  assert (Ha : contents w (Filepath.Join [dir; bundleFile "mainnet"]) = Some C').
  { rewrite Ecar. unfold contents, OS.Open, w, machine. cbn [files list_to_map foldr fst snd].
    now rewrite lookup_insert_eq. }
  assert (Hp : parseDigest d = inr (Sha256.Sum256 C)).
  { pose proof (parseDigest_hex (Sha256.Sum256 C) EmptyString (or_introl eq_refl)) as P.
    now rewrite StringFacts.append_nil_r in P. }
  rewrite (check_readable Sha256.Sum256 _ _ _ w d C' (Sha256.Sum256 C) Hd Hp Ha).
  rewrite Heq. now rewrite (proj2 (BytesFacts.Equal_eq _ _) eq_refl).
Qed.

End Counterexample.

(** * More of the fetcher: downloads, the retrieve step, the check *)

Module TextFacts.
Import Text.

Lemma upper_byte_space (a : ascii) : Ascii.eqb (upper_byte a) " " = Ascii.eqb a " ".
Proof. destruct a as [[] [] [] [] [] [] [] []]; reflexivity. Qed.

(** A hexadecimal digit has the same value in either case, and a byte that
    is no digit is none in upper case. *)
Lemma fromHexChar_upper (a : ascii) : Hex.fromHexChar (upper_byte a) = Hex.fromHexChar a.
Proof. destruct a as [[] [] [] [] [] [] [] []]; reflexivity. Qed.

Lemma before_upper (s : string) :
  GoStrings.before " " (ToUpper s) = ToUpper (GoStrings.before " " s).
Proof.
  induction s as [|a s IH]; [reflexivity |].
  cbn [ToUpper GoStrings.before]. rewrite upper_byte_space.
  destruct (Ascii.eqb a " "); [reflexivity |]. cbn [ToUpper]. now rewrite IH.
Qed.

(** Decoding is blind to the case of the digits; only the byte an error
    reports differs. *)
Lemma Decode_upper (s : string) :
  Hex.DecodeString (ToUpper s) =
    match Hex.DecodeString s with
    | inl Hex.ErrLength => inl Hex.ErrLength
    | inl (Hex.InvalidByteError c) => inl (Hex.InvalidByteError (upper_byte c))
    | inr x => inr x
    end.
Proof.
  enough (H : forall t,
             (Hex.DecodeString (ToUpper t) =
                match Hex.DecodeString t with
                | inl Hex.ErrLength => inl Hex.ErrLength
                | inl (Hex.InvalidByteError c) => inl (Hex.InvalidByteError (upper_byte c))
                | inr x => inr x
                end) /\
             (forall a, Hex.DecodeString (ToUpper (String a t)) =
                match Hex.DecodeString (String a t) with
                | inl Hex.ErrLength => inl Hex.ErrLength
                | inl (Hex.InvalidByteError c) => inl (Hex.InvalidByteError (upper_byte c))
                | inr x => inr x
                end)) by apply H.
  induction t as [|b t [IH0 IH1]]; split.
  - reflexivity.
  - intros a. cbn [ToUpper Hex.DecodeString]. rewrite fromHexChar_upper.
    now destruct (Hex.fromHexChar a).
  - apply IH1.
  - intros a. cbn [ToUpper Hex.DecodeString]. rewrite !fromHexChar_upper.
    destruct (Hex.fromHexChar a); [| reflexivity].
    destruct (Hex.fromHexChar b); [| reflexivity].
    rewrite IH0. now destruct (Hex.DecodeString t) as [[|c]|x].
Qed.

(** The digest file in upper case parses to the same digest. *)
Lemma parseDigest_upper (d x : list byte) :
  parseDigest (list_byte_of_string (ToUpper (string_of_list_byte d))) = inr x <->
  parseDigest d = inr x.
Proof.
  unfold parseDigest. rewrite string_of_list_byte_of_string, !StringFacts.hd_Split.
  rewrite before_upper, Decode_upper.
  destruct (Hex.DecodeString _) as [[|c]|y]; split; congruence.
Qed.

End TextFacts.

Section Coverage.

Variable Sum256 : list byte -> list byte.

Abbreviation check := (check Sum256).
Abbreviation refetch := (refetch Sum256).
Abbreviation Fetch := (Fetch Sum256).

(** The outcome of a download, case by case. *)
Lemma fetchURL_eq (url p : string) (w : world) :
  fetchURL url p w =
    match origin w url with
    | GetErr => (inl (ErrGet url), with_request url w)
    | Resp st body br =>
        if negb (st =? StatusOK)%Z then (inl (ErrStatus url st), with_request url w)
        else if create_err w p then (inl (ErrOpenWrite p), with_request url w)
        else (if br then inl (ErrWrite p) else inr tt,
              with_files (<[p := downloaded w p body]> (files w)) (with_request url w))
    end.
Proof.
  destruct (origin w url) as [|st body br] eqn:Ho; [now apply fetchURL_GetErr |].
  destruct (Z.eqb_spec st StatusOK) as [->|Hst]; cbn [negb].
  - destruct (create_err w p) eqn:Hc.
    + now apply (fetchURL_create_err url p w body br).
    + now apply fetchURL_copy.
  - now apply (fetchURL_status url p w st body br).
Qed.

(** X1 -- what a download that succeeds has done. The origin answered 200
    with a body that arrived whole and the local file was opened for
    writing; the file holds exactly that body and nothing of what it held
    before, as it is emptied before the copy; the request is logged and
    every other file is as it was. *)
Theorem fetchURL_overwrites (url p : string) (w w' : world) :
  fetchURL url p w = (inr tt, w') ->
  exists body,
    origin w url = Resp StatusOK body false /\ create_err w p = false /\
    w' = with_files (<[p := downloaded w p body]> (files w)) (with_request url w) /\
    data <$> (files w' !! p) = Some body /\
    contents w' p = (if openable w p then Some body else None).
Proof.
  rewrite fetchURL_eq.
  destruct (origin w url) as [|st body br]; [discriminate |].
  destruct (Z.eqb_spec st StatusOK) as [->|Hst]; cbn [negb]; [| discriminate].
  destruct (create_err w p); [discriminate |].
  destruct br; [discriminate |]. intros [= <-]. exists body.
  split; [reflexivity |]. split; [reflexivity |]. split; [reflexivity |].
  cbn [files with_files with_request].
  split; [now rewrite lookup_insert_eq |].
  unfold contents, OS.Open. cbn [files with_files with_request].
  rewrite lookup_insert_eq. unfold downloaded, openable. cbn [open_err].
  destruct (files w !! p) as [f|]; [| reflexivity].
  now destruct (open_err f).
Qed.

(** X2 -- a download that fails before the local file is written (a
    transport error, a status other than 200 whatever body comes with it,
    a file that cannot be opened for writing) leaves every file as it was:
    the world differs by the one logged request. *)
Theorem fetchURL_failure_writes_nothing (url p : string) (w : world) :
  origin w url = GetErr \/
  (exists st body br, origin w url = Resp st body br /\ st <> StatusOK) \/
  create_err w p = true ->
  exists e, fetchURL url p w = (inl e, with_request url w).
Proof.
  rewrite fetchURL_eq. intros [Hg | [(st & body & br & Hr & Hst) | Hc]].
  - rewrite Hg. eauto.
  - rewrite Hr. apply Z.eqb_neq in Hst. rewrite Hst. eauto.
  - destruct (origin w url) as [|st body br]; [eauto |].
    destruct (negb _); [eauto |]. rewrite Hc. eauto.
Qed.

(** A file that is there is still there after a download. *)
Lemma fetchURL_keeps (url p q : string) (w : world) :
  is_Some (files w !! q) -> is_Some (files (snd (fetchURL url p w)) !! q).
Proof.
  intros Hq. destruct (decide (q = p)) as [->|Hne].
  - rewrite fetchURL_eq. destruct (origin w url) as [|st body br]; [exact Hq |].
    destruct (negb _); [exact Hq |]. destruct (create_err w p); [exact Hq |].
    cbn [snd files with_files with_request]. rewrite lookup_insert_eq. eauto.
  - now rewrite fetchURL_other.
Qed.

(** X3 -- a download logs exactly one request, whatever its outcome,
    touches no file but its own, removes no file, and leaves the origin and
    the faults of the file system as they were. *)
Theorem fetchURL_frame (url p : string) (w : world) :
  let w' := snd (fetchURL url p w) in
  requests w' = requests w ++ [url] /\
  (forall q, q <> p -> files w' !! q = files w !! q) /\
  (forall q, is_Some (files w !! q) -> is_Some (files w' !! q)) /\
  mkdir_err w' = mkdir_err w /\ create_err w' = create_err w /\ origin w' = origin w.
Proof.
  cbv zeta. split; [apply fetchURL_requests |].
  split; [intros q Hq; now apply fetchURL_other |].
  split; [| apply fetchURL_static].
  intros q. apply fetchURL_keeps.
Qed.

(** The retrieve step is the digest download and then, if that one
    succeeds, the artifact download. *)
Lemma fetch_eq (release base file hash : string) (w : world) :
  fetch release base file hash w =
    match fetchURL (bundleUrl release hash) (Filepath.Join [base; hash]) w with
    | (inl c, w1) => (inl c, w1)
    | (inr _, w1) =>
        match fetchURL (bundleUrl release file) (Filepath.Join [base; file]) w1 with
        | (inl c, w2) => (inl c, w2)
        | (inr _, w2) => (inr tt, w2)
        end
    end.
Proof. reflexivity. Qed.

(** X4 -- what a retrieve step that succeeds has done. The origin answered
    both requests with 200 and a body that arrived whole, and both local
    files were opened for writing. The world it leaves is the one before
    with exactly the two files replaced by the two bodies and the two
    requests logged, the digest request first. *)
Theorem fetch_success_inv (release base netw : string) (w w' : world) :
  let hashPath := Filepath.Join [base; bundleHash netw] in
  let filePath := Filepath.Join [base; bundleFile netw] in
  let hashUrl := bundleUrl release (bundleHash netw) in
  let fileUrl := bundleUrl release (bundleFile netw) in
  fetch release base (bundleFile netw) (bundleHash netw) w = (inr tt, w') ->
  exists dbody abody,
    origin w hashUrl = Resp StatusOK dbody false /\
    origin w fileUrl = Resp StatusOK abody false /\
    create_err w hashPath = false /\ create_err w filePath = false /\
    w' = World (<[filePath := downloaded w filePath abody]>
                  (<[hashPath := downloaded w hashPath dbody]> (files w)))
               (mkdir_err w) (create_err w) (origin w)
               (requests w ++ [hashUrl; fileUrl]).
Proof.
  cbv zeta. rewrite fetch_eq, fetchURL_eq.
  destruct (origin w (bundleUrl release (bundleHash netw))) as [|st dbody br] eqn:Hd;
    [discriminate |].
  destruct (Z.eqb_spec st StatusOK) as [->|Hst]; cbn [negb]; [| discriminate].
  destruct (create_err w (Filepath.Join [base; bundleHash netw])) eqn:Hcd;
    [discriminate |].
  destruct br; [discriminate |].
  rewrite fetchURL_eq. cbn [origin create_err with_files with_request].
  destruct (origin w (bundleUrl release (bundleFile netw))) as [|st abody br] eqn:Ha;
    [discriminate |].
  destruct (Z.eqb_spec st StatusOK) as [->|Hst]; cbn [negb]; [| discriminate].
  destruct (create_err w (Filepath.Join [base; bundleFile netw])) eqn:Hca;
    [discriminate |].
  destruct br; [discriminate |]. intros [= <-]. exists dbody, abody.
  repeat (split; [reflexivity |]).
  unfold with_files, with_request, downloaded.
  cbn [files mkdir_err create_err origin requests].
  rewrite lookup_insert_ne
    by (intros E; symmetry in E; now apply file_hash_paths_distinct in E).
  now rewrite <- app_assoc.
Qed.

(** What a download returns depends on the origin and on whether the file
    can be opened for writing; run where the file already holds what the
    download leaves, it leaves the files as they are. *)
Lemma fetchURL_twice (url p : string) (w v : world) :
  origin v = origin w -> create_err v = create_err w ->
  files v !! p = files (snd (fetchURL url p w)) !! p ->
  fst (fetchURL url p v) = fst (fetchURL url p w) /\
  files (snd (fetchURL url p v)) = files v.
Proof.
  intros Ho Hc. rewrite !fetchURL_eq, Ho, Hc.
  destruct (origin w url) as [|st body br]; [now split |].
  destruct (negb _); [now split |].
  destruct (create_err w p); [now split |].
  cbn [snd fst files with_files with_request]. rewrite lookup_insert_eq. intros Hf.
  split; [reflexivity |]. apply insert_id. rewrite Hf.
  unfold downloaded. now rewrite Hf.
Qed.

(** X5 -- the retrieve step run again on the world it left, against the
    same origin, returns what it returned and leaves every file as the first
    run left it: a download empties the file before it writes, so nothing
    is appended and nothing is left over. *)
Theorem fetch_again (release base netw : string) (w : world) :
  let retrieve := fetch release base (bundleFile netw) (bundleHash netw) in
  fst (retrieve (snd (retrieve w))) = fst (retrieve w) /\
  files (snd (retrieve (snd (retrieve w)))) = files (snd (retrieve w)).
Proof.
  cbv zeta.
  set (hurl := bundleUrl release (bundleHash netw)).
  set (furl := bundleUrl release (bundleFile netw)).
  set (hp := Filepath.Join [base; bundleHash netw]).
  set (fp := Filepath.Join [base; bundleFile netw]).
  assert (Hne : fp <> hp) by apply file_hash_paths_distinct.
  rewrite (fetch_eq release base (bundleFile netw) (bundleHash netw) w).
  fold hurl furl hp fp.
  pose proof (fetchURL_static hurl hp w) as (_ & Hc1 & Ho1).
  destruct (fetchURL hurl hp w) as [[c|[]] w1] eqn:E1; cbn [snd] in Hc1, Ho1.
  - cbn [fst snd]. rewrite fetch_eq. fold hurl furl hp fp.
    destruct (fetchURL_twice hurl hp w w1 Ho1 Hc1) as [Hr Hf];
      [now rewrite E1 |].
    rewrite E1 in Hr. cbn [fst] in Hr.
    destruct (fetchURL hurl hp w1) as [r w1']. cbn [fst snd] in Hr, Hf. now subst r.
  - pose proof (fetchURL_static furl fp w1) as (_ & Hc2 & Ho2).
    pose proof (fetchURL_other furl fp hp w1 Hne) as Hhp.
    destruct (fetchURL furl fp w1) as [r2 w2] eqn:E2; cbn [snd] in Hc2, Ho2, Hhp.
    assert (Hgo : fst (fetch release base (bundleFile netw) (bundleHash netw) w2)
                  = match r2 with inl c => inl c | inr _ => inr tt end /\
                  files (snd (fetch release base (bundleFile netw) (bundleHash netw) w2))
                  = files w2).
    { rewrite fetch_eq. fold hurl furl hp fp.
      destruct (fetchURL_twice hurl hp w w2) as [Hr Hf];
        [congruence | congruence | rewrite E1; cbn [snd]; exact Hhp |].
      rewrite E1 in Hr. cbn [fst] in Hr.
      pose proof (fetchURL_static hurl hp w2) as (_ & Hc3 & Ho3).
      destruct (fetchURL hurl hp w2) as [r3 w3]. cbn [fst snd] in Hr, Hf, Hc3, Ho3.
      subst r3.
      destruct (fetchURL_twice furl fp w1 w3) as [Hr4 Hf4];
        [congruence | congruence | rewrite E2, Hf; reflexivity |].
      rewrite E2 in Hr4. cbn [fst] in Hr4.
      destruct (fetchURL furl fp w3) as [r4 w4]. cbn [fst snd] in Hr4, Hf4. subst r4.
      destruct r2 as [c|[]]; cbn [fst snd]; split; congruence. }
    destruct r2 as [c|[]]; cbn [fst snd]; exact Hgo.
Qed.

(** X6 -- the ways [check] ends. It accepts only when both files were read
    and the digest file parses to the digest of the artifact. It fails in
    six ways and no other: the digest file does not open, does not read or
    does not decode; or, the digest file read and decoded, the artifact
    does not open, does not read, or has another digest. A fault of the
    digest file is reported whatever the state of the artifact. *)
Theorem check_outcomes (base file hash : string) (w : world) :
  let hashPath := Filepath.Join [base; hash] in
  let filePath := Filepath.Join [base; file] in
  let decoded := exists d x, contents w hashPath = Some d /\ parseDigest d = inr x in
  match fst (check base file hash w) with
  | inr _ =>
      exists d content,
        contents w hashPath = Some d /\ contents w filePath = Some content /\
        parseDigest d = inr (Sum256 content)
  | inl (ErrOpen p) =>
      (p = hashPath /\ OS.Open hashPath w = None) \/
      (p = filePath /\ decoded /\ OS.Open filePath w = None)
  | inl (ErrRead p) =>
      p = hashPath /\ exists f, OS.Open hashPath w = Some f /\ read_err f = true
  | inl (ErrDecode p e) =>
      p = hashPath /\ exists d, contents w hashPath = Some d /\ parseDigest d = inl e
  | inl (ErrDigest p) =>
      p = filePath /\ decoded /\
      exists f, OS.Open filePath w = Some f /\ read_err f = true
  | inl ErrHashMismatch =>
      exists d x content,
        contents w hashPath = Some d /\ parseDigest d = inr x /\
        contents w filePath = Some content /\ Sum256 content <> x
  | inl _ => False
  end.
Proof.
  cbv zeta. unfold contents, check, bind, or_fail, ret, fail.
  destruct (OS.Open (Filepath.Join [base; hash]) w) as [f|] eqn:Hf; cbn [fst];
    [| now left].
  destruct (OS.ReadAll f) as [d|] eqn:Hr; cbn [fst].
  2:{ split; [reflexivity |]. exists f. split; [reflexivity |].
      unfold OS.ReadAll in Hr. now destruct (read_err f). }
  destruct (parseDigest d) as [e|x] eqn:Hp; cbn [fst]; [now eauto |].
  destruct (OS.Open (Filepath.Join [base; file]) w) as [g|] eqn:Hg; cbn [fst];
    [| right; eauto 6].
  destruct (OS.ReadAll g) as [content|] eqn:Hrg; cbn [fst].
  2:{ split; [reflexivity |]. split; [eauto |]. exists g. split; [reflexivity |].
      unfold OS.ReadAll in Hrg. now destruct (read_err g). }
  destruct (Bytes.Equal (Sum256 content) x) eqn:E; cbn [negb fst].
  - apply BytesFacts.Equal_eq in E. subst x. eauto.
  - apply BytesFacts.Equal_neq in E. eauto 8.
Qed.

(** X7 -- [check] only reads: it leaves the world as it was, and what it
    returns depends on the two files alone, not on the origin, on the log
    of requests or on any other file. *)
Theorem check_reads_two_files (base file hash : string) (w : world) :
  snd (check base file hash w) = w /\
  (forall w' : world,
     files w' !! Filepath.Join [base; hash] = files w !! Filepath.Join [base; hash] ->
     files w' !! Filepath.Join [base; file] = files w !! Filepath.Join [base; file] ->
     fst (check base file hash w') = fst (check base file hash w)).
Proof.
  split; [apply check_world |]. intros w' Hh Hf.
  unfold check, bind, or_fail, ret, fail, OS.Open. rewrite Hh, Hf.
  destruct (files w !! Filepath.Join [base; hash]) as [f|]; [| reflexivity].
  destruct (open_err f); [reflexivity |].
  destruct (OS.ReadAll f) as [d|]; [| reflexivity].
  destruct (parseDigest d) as [e|x]; [reflexivity |].
  destruct (files w !! Filepath.Join [base; file]) as [g|]; [| reflexivity].
  destruct (open_err g); [reflexivity |].
  destruct (OS.ReadAll g) as [content|]; [| reflexivity].
  now destruct (negb _).
Qed.

(** X8 -- a digest file that is empty, or that starts with a space, is no
    decoding error: the text before the first space is empty and decodes to
    no bytes. [check] goes on to the artifact and, the artifact read,
    fails with the hash mismatch, as a digest is never empty. *)
Theorem check_empty_digest (base file hash : string) (w : world) (d : list byte) :
  contents w (Filepath.Join [base; hash]) = Some d ->
  d = [] \/ (exists t, d = x20 :: t) ->
  parseDigest d = inr [] /\
  (forall content,
     contents w (Filepath.Join [base; file]) = Some content ->
     Sum256 content <> [] ->
     fst (check base file hash w) = inl ErrHashMismatch) /\
  (contents w (Filepath.Join [base; file]) = None ->
   fst (check base file hash w) = inl (ErrOpen (Filepath.Join [base; file])) \/
   fst (check base file hash w) = inl (ErrDigest (Filepath.Join [base; file]))).
Proof.
  intros Hd Hshape.
  assert (Hp : parseDigest d = inr []) by now destruct Hshape as [-> | (t & ->)].
  split; [exact Hp |]. rewrite (check_parsed _ _ _ _ _ _ Hd), Hp. split.
  - unfold contents. intros content Hc Hne.
    destruct (OS.Open (Filepath.Join [base; file]) w) as [g|]; [| discriminate].
    rewrite Hc. destruct (Bytes.Equal (Sum256 content) []) eqn:E; [| reflexivity].
    apply BytesFacts.Equal_eq in E. now elim Hne.
  - unfold contents.
    destruct (OS.Open (Filepath.Join [base; file]) w) as [g|]; [| now left].
    intros ->. now right.
Qed.

(** X9 -- the case of the hexadecimal digits in the digest file does not
    matter: with the digest file rewritten in upper case and the same
    artifact, [check] accepts exactly when it accepted, and returns what
    it returned whenever the digest file decodes. *)
Theorem check_digest_case (base file hash : string) (w w' : world) (d : list byte) :
  contents w (Filepath.Join [base; hash]) = Some d ->
  contents w' (Filepath.Join [base; hash])
    = Some (list_byte_of_string (Text.ToUpper (string_of_list_byte d))) ->
  files w' !! Filepath.Join [base; file] = files w !! Filepath.Join [base; file] ->
  (fst (check base file hash w') = inr tt <-> fst (check base file hash w) = inr tt) /\
  (forall x, parseDigest d = inr x ->
             fst (check base file hash w') = fst (check base file hash w)).
Proof.
  intros Hd Hd' Hf.
  rewrite (check_parsed _ _ _ _ _ _ Hd), (check_parsed _ _ _ _ _ _ Hd').
  unfold OS.Open. rewrite Hf.
  pose proof (TextFacts.parseDigest_upper d) as Hup.
  destruct (parseDigest d) as [e|x] eqn:Hp.
  - destruct (parseDigest (list_byte_of_string _)) as [e'|x'] eqn:Hp'.
    + split; [split; discriminate | discriminate].
    + destruct (Hup x') as [Hx _]. now specialize (Hx eq_refl).
  - destruct (Hup x) as [_ Hx]. rewrite (Hx eq_refl).
    split; [reflexivity | now intros ? _].
Qed.

(** ** [Fetch] as a whole *)

(** The world the retrieve step leaves is the one its last download left. *)
Lemma fetch_snd (release base file hash : string) (w : world) :
  snd (fetch release base file hash w)
  = snd (fetchURL (bundleUrl release hash) (Filepath.Join [base; hash]) w) \/
  snd (fetch release base file hash w)
  = snd (fetchURL (bundleUrl release file) (Filepath.Join [base; file])
           (snd (fetchURL (bundleUrl release hash) (Filepath.Join [base; hash]) w))).
Proof.
  rewrite fetch_eq.
  destruct (fetchURL (bundleUrl release hash) _ w) as [[c|u] w1]; [now left |].
  right. cbn [snd]. now destruct (fetchURL (bundleUrl release file) _ w1) as [[c|u'] w2].
Qed.

Lemma fetch_other (release base file hash q : string) (w : world) :
  q <> Filepath.Join [base; hash] -> q <> Filepath.Join [base; file] ->
  files (snd (fetch release base file hash w)) !! q = files w !! q.
Proof.
  intros Hh Hf. destruct (fetch_snd release base file hash w) as [-> | ->].
  - now apply fetchURL_other.
  - rewrite fetchURL_other by congruence. now apply fetchURL_other.
Qed.

Lemma fetch_keeps (release base file hash q : string) (w : world) :
  is_Some (files w !! q) -> is_Some (files (snd (fetch release base file hash w)) !! q).
Proof.
  intros Hq. destruct (fetch_snd release base file hash w) as [-> | ->];
    auto using fetchURL_keeps.
Qed.

(** The check that follows the retrieve step only reads. *)
Lemma refetch_snd (release base file hash : string) (w : world) :
  snd (refetch release base file hash w) = snd (fetch release base file hash w).
Proof.
  unfold refetch.
  destruct (fetch release base file hash w) as [[c|u] w1]; [reflexivity |].
  rewrite check_eta. now destruct (fst _).
Qed.

(** [Fetch] leaves the world as it was or as the retrieve step run on it
    leaves it. *)
Lemma Fetch_snd (b : BundleFetcher) (version : Z) (release netw : string) (w : world) :
  snd (Fetch b version release netw w) = w \/
  snd (Fetch b version release netw w)
  = snd (fetch release (bundleBasePath b version release) (bundleFile netw)
               (bundleHash netw) w).
Proof.
  destruct (Fetch_cases Sum256 b version release netw w) as [-> | [-> | (_ & _ & ->)]];
    [now left | now left | right; apply refetch_snd].
Qed.

(** The errors of a download name its URL or its file. *)
Lemma fetchURL_errors (url p : string) (w w1 : world) (c : error) :
  fetchURL url p w = (inl c, w1) ->
  c = ErrGet url \/ (exists st, st <> StatusOK /\ c = ErrStatus url st) \/
  c = ErrOpenWrite p \/ c = ErrWrite p.
Proof.
  rewrite fetchURL_eq. destruct (origin w url) as [|st body br]; [intros [= <- _]; auto |].
  destruct (Z.eqb_spec st StatusOK) as [->|Hst]; cbn [negb];
    [| intros [= <- _]; eauto].
  destruct (create_err w p); [intros [= <- _]; auto |].
  destruct br; [intros [= <- _]; auto | discriminate].
Qed.

(** X10 -- what a successful [Fetch] guarantees. The path it returns is
    the artifact path, and in the world it leaves the digest file and the
    artifact both read and the digest file parses to the digest of the
    artifact: the caller gets a verified artifact, on the cache hit as
    after a download, and the cache holds a hit from then on. *)
Theorem Fetch_returns_verified_artifact (b : BundleFetcher) (version : Z)
    (release netw p : string) (w w' : world) :
  Fetch b version release netw w = (inr p, w') ->
  p = bundleFilePath b version release netw /\
  (exists d content,
     contents w' (bundleHashPath b version release netw) = Some d /\
     contents w' p = Some content /\
     parseDigest d = inr (Sum256 content)) /\
  cache_hit Sum256 b version release netw w' = true.
Proof.
  intros HF. apply Fetch_ok_inv in HF as (-> & _ & Hc & _).
  split; [reflexivity |].
  destruct (check_ok_inv _ _ _ _ _ Hc) as (d & content & Hd & Ha & Hp).
  split; [now exists d, content |].
  unfold cache_hit, bundleFilePath. rewrite (contents_Stat _ _ _ Ha). now rewrite Hc.
Qed.

(** X11 -- [Fetch] asks the origin at most twice: nothing, the digest file
    alone, or the digest file and then the artifact, each once and at its
    own URL. When it succeeds it has asked nothing or both. *)
Theorem Fetch_asks_at_most_twice (b : BundleFetcher) (version : Z) (release netw : string)
    (w : world) :
  let w' := snd (Fetch b version release netw w) in
  let hashUrl := bundleUrl release (bundleHash netw) in
  let fileUrl := bundleUrl release (bundleFile netw) in
  (requests w' = requests w \/ requests w' = requests w ++ [hashUrl] \/
   requests w' = requests w ++ [hashUrl; fileUrl]) /\
  (forall p, fst (Fetch b version release netw w) = inr p ->
             requests w' = requests w \/ requests w' = requests w ++ [hashUrl; fileUrl]).
Proof.
  cbv zeta. split.
  - destruct (Fetch_snd b version release netw w) as [-> | ->]; [now left |].
    destruct (fetch_requests release (bundleBasePath b version release)
                (bundleFile netw) (bundleHash netw) w) as (rest & -> & [-> | ->]); auto.
  - intros p Hp.
    destruct (Fetch b version release netw w) as [r w'] eqn:HF. cbn [fst snd] in *.
    subst r. apply Fetch_ok_inv in HF as (_ & _ & _ & [-> | Hf]); [now left |].
    right. now apply fetch_ok_requests in Hf.
Qed.

(** X12 -- what [Fetch] leaves alone, whatever its outcome: every file
    other than the digest file and the artifact of its own bundle is as it
    was, no file is removed, and the origin and the faults of the file
    system are as they were. *)
Theorem Fetch_frame (b : BundleFetcher) (version : Z) (release netw : string) (w : world) :
  let w' := snd (Fetch b version release netw w) in
  (forall q, q <> bundleHashPath b version release netw ->
             q <> bundleFilePath b version release netw ->
             files w' !! q = files w !! q) /\
  (forall q, is_Some (files w !! q) -> is_Some (files w' !! q)) /\
  mkdir_err w' = mkdir_err w /\ create_err w' = create_err w /\ origin w' = origin w.
Proof.
  cbv zeta. destruct (Fetch_snd b version release netw w) as [-> | ->].
  - repeat split; auto.
  - split; [intros q Hh Hf; now apply fetch_other |].
    split; [intros q; apply fetch_keeps |]. apply fetch_static.
Qed.

(** X13 -- the bundles of two networks do not disturb one another. A
    [Fetch] for one network, whatever its outcome, leaves the two files of
    another network of the same version and release as they were; [check]
    returns for them what it returned, and a cache hit stays a cache hit. *)
Theorem Fetch_other_network_untouched (b : BundleFetcher) (version : Z) (release : string)
    (n1 n2 : string) (w : world) :
  n1 <> n2 ->
  GoStrings.free_of "/" n1 = true -> GoStrings.free_of "/" n2 = true ->
  let w' := snd (Fetch b version release n1 w) in
  let base := bundleBasePath b version release in
  files w' !! bundleFilePath b version release n2
    = files w !! bundleFilePath b version release n2 /\
  files w' !! bundleHashPath b version release n2
    = files w !! bundleHashPath b version release n2 /\
  fst (check base (bundleFile n2) (bundleHash n2) w')
    = fst (check base (bundleFile n2) (bundleHash n2) w) /\
  cache_hit Sum256 b version release n2 w' = cache_hit Sum256 b version release n2 w.
Proof.
  intros Hne H1 H2. cbv zeta.
  set (base := bundleBasePath b version release).
  assert (Hff : Filepath.Join [base; bundleFile n2] <> Filepath.Join [base; bundleFile n1]).
  { intros E. apply FilepathFacts.Join_file_inj in E;
      auto using bundleFile_free, bundleFile_long.
    apply bundleFile_inj in E. now elim Hne. }
  assert (Hhh : Filepath.Join [base; bundleHash n2] <> Filepath.Join [base; bundleHash n1]).
  { intros E. apply FilepathFacts.Join_file_inj in E;
      auto using bundleHash_free, bundleHash_long.
    apply bundleHash_inj in E. now elim Hne. }
  assert (Hfh : Filepath.Join [base; bundleFile n2] <> Filepath.Join [base; bundleHash n1])
    by apply file_hash_paths_distinct.
  assert (Hhf : Filepath.Join [base; bundleHash n2] <> Filepath.Join [base; bundleFile n1])
    by (intros E; symmetry in E; now apply file_hash_paths_distinct in E).
  assert (Hfile : files (snd (Fetch b version release n1 w))
                    !! Filepath.Join [base; bundleFile n2]
                  = files w !! Filepath.Join [base; bundleFile n2]).
  { destruct (Fetch_snd b version release n1 w) as [-> | ->]; [reflexivity |].
    now apply fetch_other. }
  assert (Hhash : files (snd (Fetch b version release n1 w))
                    !! Filepath.Join [base; bundleHash n2]
                  = files w !! Filepath.Join [base; bundleHash n2]).
  { destruct (Fetch_snd b version release n1 w) as [-> | ->]; [reflexivity |].
    now apply fetch_other. }
  assert (Hcheck : fst (check base (bundleFile n2) (bundleHash n2)
                          (snd (Fetch b version release n1 w)))
                   = fst (check base (bundleFile n2) (bundleHash n2) w)).
  { unfold check, bind, or_fail, ret, fail, OS.Open. rewrite Hhash, Hfile.
    destruct (files w !! Filepath.Join [base; bundleHash n2]) as [f|]; [| reflexivity].
    destruct (open_err f); [reflexivity |].
    destruct (OS.ReadAll f) as [d|]; [| reflexivity].
    destruct (parseDigest d) as [e|x]; [reflexivity |].
    destruct (files w !! Filepath.Join [base; bundleFile n2]) as [g|]; [| reflexivity].
    destruct (open_err g); [reflexivity |].
    destruct (OS.ReadAll g) as [content|]; [| reflexivity].
    now destruct (negb _). }
  split; [exact Hfile |]. split; [exact Hhash |]. split; [exact Hcheck |].
  unfold cache_hit, OS.Stat, bundleFilePath. fold base. now rewrite Hfile, Hcheck.
Qed.



(** X15 -- the errors [Fetch] returns. There are three kinds and no other:
    the directory could not be made; a download failed, and the cause names
    the URL asked or the file written; or the check of what was downloaded
    failed, after a retrieve step that succeeded. An error of the check on
    a file found in place is never returned. *)
Theorem Fetch_errors (b : BundleFetcher) (version : Z) (release netw : string)
    (w w' : world) (e : error) :
  let base := bundleBasePath b version release in
  let hashPath := bundleHashPath b version release netw in
  let filePath := bundleFilePath b version release netw in
  let hashUrl := bundleUrl release (bundleHash netw) in
  let fileUrl := bundleUrl release (bundleFile netw) in
  Fetch b version release netw w = (inl e, w') ->
  (e = ErrMkdir base /\ mkdir_err w base = true /\ w' = w) \/
  (exists c, e = ErrFetchingBundle c /\
     (c = ErrGet hashUrl \/ (exists st, st <> StatusOK /\ c = ErrStatus hashUrl st) \/
      c = ErrOpenWrite hashPath \/ c = ErrWrite hashPath \/
      c = ErrGet fileUrl \/ (exists st, st <> StatusOK /\ c = ErrStatus fileUrl st) \/
      c = ErrOpenWrite filePath \/ c = ErrWrite filePath)) \/
  (exists c, e = ErrCheckingBundle c /\
     fst (check base (bundleFile netw) (bundleHash netw) w') = inl c /\
     fetch release base (bundleFile netw) (bundleHash netw) w = (inr tt, w')).
Proof.
  cbv zeta. intros HF.
  destruct (mkdir_err w (bundleBasePath b version release)) eqn:Hm.
  { rewrite (Fetch_mkdir_err Sum256 _ _ _ _ _ Hm) in HF. injection HF as <- <-. now left. }
  right.
  destruct (cache_hit Sum256 b version release netw w) eqn:Hhit.
  { unfold cache_hit in Hhit.
    destruct (OS.Stat (bundleFilePath b version release netw) w) as [[]|] eqn:Hs;
      [| discriminate].
    destruct (fst (check _ _ _ w)) as [c|[]] eqn:Hc; [discriminate |].
    rewrite (Fetch_hit Sum256 _ _ _ _ _ Hm Hs Hc) in HF. discriminate. }
  rewrite (Fetch_miss Sum256 _ _ _ _ _ Hm Hhit) in HF. unfold refetch in HF.
  destruct (fetch release _ _ _ w) as [[c|[]] w1] eqn:Hf.
  - injection HF as <- <-. left. exists c. split; [reflexivity |].
    rewrite fetch_eq in Hf.
    destruct (fetchURL (bundleUrl release (bundleHash netw)) _ w) as [[c1|[]] v1] eqn:E1.
    + injection Hf as <- <-.
      destruct (fetchURL_errors _ _ _ _ _ E1) as [-> | [(st & Hst & ->) | [-> | ->]]]; eauto 8.
    + destruct (fetchURL (bundleUrl release (bundleFile netw)) _ v1) as [[c2|[]] v2] eqn:E2;
        [| discriminate].
      injection Hf as <- <-.
      destruct (fetchURL_errors _ _ _ _ _ E2) as [-> | [(st & Hst & ->) | [-> | ->]]];
        eauto 12.
  - right. rewrite check_eta in HF.
    destruct (fst (check _ _ _ w1)) as [c|[]] eqn:Hc; [| discriminate].
    injection HF as <- <-. eauto.
Qed.

End Coverage.

(** * Names, paths and URLs *)

Module NameFacts.

#[local] Arguments String.append !_ _ / : simpl nomatch.

(** [%d] prints different numbers differently. *)
Lemma fmt_d_inj (x y : Z) : GoStrings.fmt_d x = GoStrings.fmt_d y -> x = y.
Proof.
  assert (Hnil : forall z, Z.to_int z <> Decimal.Pos Decimal.Nil /\
                           Z.to_int z <> Decimal.Neg Decimal.Nil).
  { intros [|p|p]; split; cbn; try discriminate; intros [= E];
      now apply DecimalPos.Unsigned.to_uint_nonnil in E. }
  unfold GoStrings.fmt_d. intros E. apply (f_equal NilZero.int_of_string) in E.
  rewrite !NilZero.isi in E by apply Hnil.
  injection E as E. now apply DecimalZ.to_int_inj.
Qed.

(** Two texts cut at their first separator are equal piece by piece. *)
Lemma append_sep_inj (sep : ascii) (a a' x x' : string) :
  GoStrings.free_of sep a = true -> GoStrings.free_of sep a' = true ->
  a +:+ String sep x = a' +:+ String sep x' -> a = a' /\ x = x'.
Proof.
  intros Ha Ha' E.
  assert (Eaa : a = a').
  { rewrite <- (StringFacts.before_append_sep sep a x Ha).
    rewrite <- (StringFacts.before_append_sep sep a' x' Ha'). now rewrite E. }
  subst a'. apply StringFacts.append_inv_head in E. now injection E as ->.
Qed.

Lemma is_elem_free (e : string) : Filepath.is_elem e = true -> GoStrings.free_of "/" e = true.
Proof.
  unfold Filepath.is_elem. now destruct (GoStrings.free_of "/" e).
Qed.

Lemma is_elem_version (version : Z) :
  Filepath.is_elem ("v" +:+ GoStrings.fmt_d version) = true.
Proof.
  unfold Filepath.is_elem.
  change (GoStrings.free_of "/" ("v" +:+ GoStrings.fmt_d version))
    with (GoStrings.free_of "/" (GoStrings.fmt_d version)).
  now rewrite StringFacts.free_of_fmt_d.
Qed.

(** The directory of a fetcher is in clean form, whatever the base path. *)
Lemma fetcher_dir_clean (basepath : string) :
  Filepath.clean_dir (Filepath.Join [basepath; "builtin-actors"]).
Proof.
  assert (Hne : Filepath.Join [basepath; "builtin-actors"] <> EmptyString).
  { destruct (String.eqb_spec basepath EmptyString) as [->|Hr].
    - now apply (FilepathFacts.Join_head_nonempty "builtin-actors").
    - now apply FilepathFacts.Join_head_nonempty. }
  destruct (FilepathFacts.Join_is_Clean _ Hne) as (a & Ha & Ea).
  destruct (FilepathFacts.Join_file basepath) as (pre & Hpre).
  assert (Elen : (14 <= String.length (Filepath.Join [basepath; "builtin-actors"]))%nat).
  { rewrite (Hpre "builtin-actors") by (cbn; auto; lia).
    rewrite StringFacts.length_append. cbn. lia. }
  repeat split.
  - rewrite Ea. now apply FilepathFacts.Clean_idem.
  - intros E. rewrite E in Elen. cbn in Elen. lia.
  - intros E. rewrite E in Elen. cbn in Elen. lia.
Qed.

(** Under a clean directory the versioned directory, and a file in it, are
    written letter for letter. *)
Lemma bundle_path_literal (b : BundleFetcher) (version : Z) (release f : string) :
  Filepath.clean_dir (path b) -> Filepath.is_elem release = true ->
  Filepath.is_elem f = true ->
  Filepath.Join [bundleBasePath b version release; f]
  = path b +:+ "/" +:+ ("v" +:+ GoStrings.fmt_d version) +:+ "/" +:+ release +:+ "/" +:+ f.
Proof.
  intros Hp Hr Hf. unfold bundleBasePath.
  rewrite FilepathFacts.Join3_clean by auto using is_elem_version.
  rewrite FilepathFacts.Join2_clean.
  - now rewrite !StringFacts.append_assoc.
  - rewrite <- (StringFacts.append_assoc "/" ("v" +:+ GoStrings.fmt_d version)).
    rewrite <- (StringFacts.append_assoc (path b)).
    auto using FilepathFacts.clean_dir_extend, is_elem_version.
  - exact Hf.
Qed.

Lemma bundle_path_inj (b : BundleFetcher) (v1 v2 : Z) (r1 r2 f1 f2 : string) :
  Filepath.clean_dir (path b) ->
  Filepath.is_elem r1 = true -> Filepath.is_elem r2 = true ->
  Filepath.is_elem f1 = true -> Filepath.is_elem f2 = true ->
  Filepath.Join [bundleBasePath b v1 r1; f1] = Filepath.Join [bundleBasePath b v2 r2; f2] ->
  v1 = v2 /\ r1 = r2 /\ f1 = f2.
Proof.
  intros Hp Hr1 Hr2 Hf1 Hf2.
  rewrite !bundle_path_literal by assumption. intros E.
  apply StringFacts.append_inv_head in E.
  change ("/" +:+ ("v" +:+ GoStrings.fmt_d v1) +:+ "/" +:+ r1 +:+ "/" +:+ f1)
    with (String "/" (String "v" (GoStrings.fmt_d v1 +:+ String "/" (r1 +:+ String "/" f1))))
    in E.
  change ("/" +:+ ("v" +:+ GoStrings.fmt_d v2) +:+ "/" +:+ r2 +:+ "/" +:+ f2)
    with (String "/" (String "v" (GoStrings.fmt_d v2 +:+ String "/" (r2 +:+ String "/" f2))))
    in E.
  injection E as E.
  apply append_sep_inj in E as [Ev E]; auto using StringFacts.free_of_fmt_d.
  apply append_sep_inj in E as [Er E]; auto using is_elem_free.
  auto using fmt_d_inj.
Qed.

Lemma bundleUrl_inj (r1 r2 f1 f2 : string) :
  GoStrings.free_of "/" r1 = true -> GoStrings.free_of "/" r2 = true ->
  bundleUrl r1 f1 = bundleUrl r2 f2 -> r1 = r2 /\ f1 = f2.
Proof.
  unfold bundleUrl. intros H1 H2 E.
  apply StringFacts.append_inv_head in E.
  change (r1 +:+ String "/" f1 = r2 +:+ String "/" f2) in E.
  now apply append_sep_inj in E.
Qed.

End NameFacts.

(** X16 -- a fetcher keeps the bundles apart. For a fetcher made by
    [NewBundleFetcher], releases that are plain path elements and network
    names without a slash, two bundles that differ in the version, the
    release or the network have different artifact paths and different
    digest paths, and no artifact path is a digest path: the files of one
    bundle are never taken for, or overwritten by, those of another. *)
Theorem bundle_paths_injective (basepath : string) (w w1 : world) (b : BundleFetcher)
    (v1 v2 : Z) (r1 r2 n1 n2 : string) :
  NewBundleFetcher basepath w = (inr b, w1) ->
  Filepath.is_elem r1 = true -> Filepath.is_elem r2 = true ->
  GoStrings.free_of "/" n1 = true -> GoStrings.free_of "/" n2 = true ->
  (bundleFilePath b v1 r1 n1 = bundleFilePath b v2 r2 n2 -> v1 = v2 /\ r1 = r2 /\ n1 = n2) /\
  (bundleHashPath b v1 r1 n1 = bundleHashPath b v2 r2 n2 -> v1 = v2 /\ r1 = r2 /\ n1 = n2) /\
  bundleFilePath b v1 r1 n1 <> bundleHashPath b v2 r2 n2.
Proof.
  intros Hnew Hr1 Hr2 Hn1 Hn2.
  apply NewBundleFetcher_inv in Hnew as (-> & _ & _).
  assert (Hp : Filepath.clean_dir (path {| path := Filepath.Join [basepath; "builtin-actors"] |}))
    by apply NameFacts.fetcher_dir_clean.
  assert (Hf : forall n, GoStrings.free_of "/" n = true ->
                         Filepath.is_elem (bundleFile n) = true)
    by (intros n Hn; apply FilepathFacts.is_elem_long;
        auto using bundleFile_free, bundleFile_long).
  assert (Hh : forall n, GoStrings.free_of "/" n = true ->
                         Filepath.is_elem (bundleHash n) = true)
    by (intros n Hn; apply FilepathFacts.is_elem_long;
        auto using bundleHash_free, bundleHash_long).
  unfold bundleFilePath, bundleHashPath. repeat apply conj.
  - intros E. apply NameFacts.bundle_path_inj in E as (-> & -> & E); auto.
    apply bundleFile_inj in E. auto.
  - intros E. apply NameFacts.bundle_path_inj in E as (-> & -> & E); auto.
    apply bundleHash_inj in E. auto.
  - intros E. apply NameFacts.bundle_path_inj in E as (_ & _ & E); auto.
    apply (f_equal GoStrings.last_byte) in E. unfold bundleFile, bundleHash in E.
    rewrite !StringFacts.last_byte_append in E by discriminate. discriminate E.
Qed.

(** X17 -- the URLs of two bundles. For releases without a slash, the
    artifact URLs of two bundles that differ in the release or the network
    differ, and so do their digest URLs; an artifact URL is never a digest
    URL, whatever the releases and the networks. *)
Theorem bundle_urls_injective (r1 r2 n1 n2 : string) :
  (GoStrings.free_of "/" r1 = true -> GoStrings.free_of "/" r2 = true ->
   (bundleUrl r1 (bundleFile n1) = bundleUrl r2 (bundleFile n2) -> r1 = r2 /\ n1 = n2) /\
   (bundleUrl r1 (bundleHash n1) = bundleUrl r2 (bundleHash n2) -> r1 = r2 /\ n1 = n2)) /\
  bundleUrl r1 (bundleFile n1) <> bundleUrl r2 (bundleHash n2).
Proof.
  split.
  - intros H1 H2. split; intros E; apply NameFacts.bundleUrl_inj in E as [-> E]; auto.
    + apply bundleFile_inj in E. auto.
    + apply bundleHash_inj in E. auto.
  - intros E. apply (f_equal GoStrings.last_byte) in E.
    unfold bundleUrl, bundleFile, bundleHash in E.
    rewrite <- !StringFacts.append_assoc in E.
    rewrite !StringFacts.last_byte_append in E by discriminate.
    discriminate E.
Qed.

(** X18 -- [NewBundleFetcher] sees the base path up to its clean form: a
    trailing slash, a doubled slash or a [.] element in the base path gives
    the same fetcher, and the empty base path the one of [.]. The directory
    of the fetcher is in clean form, never empty, [.] or the root, and for
    a release that is a plain path element and a network name without a
    slash the artifact lies under it, at
    [<directory>/v<version>/<release>/builtin-actors-<network>.car]. *)
Theorem NewBundleFetcher_normalises (basepath : string) (w : world) :
  NewBundleFetcher (Filepath.Clean basepath) w = NewBundleFetcher basepath w /\
  Filepath.clean_dir (Filepath.Join [basepath; "builtin-actors"]) /\
  (forall (b : BundleFetcher) (w1 : world) (version : Z) (release netw : string),
     NewBundleFetcher basepath w = (inr b, w1) ->
     Filepath.is_elem release = true -> GoStrings.free_of "/" netw = true ->
     bundleFilePath b version release netw
     = path b +:+ "/v" +:+ GoStrings.fmt_d version +:+ "/" +:+ release
              +:+ "/builtin-actors-" +:+ netw +:+ ".car").
Proof.
  assert (Hdir : Filepath.Join [Filepath.Clean basepath; "builtin-actors"]
                 = Filepath.Join [basepath; "builtin-actors"]).
  { destruct (String.eqb_spec basepath EmptyString) as [->|Hb]; [reflexivity |].
    pose proof (FilepathFacts.Clean_nonempty basepath) as Hc.
    cbn [Filepath.Join].
    destruct (String.eqb_spec (Filepath.Clean basepath) EmptyString) as [E|_];
      [now elim Hc |].
    destruct (String.eqb_spec basepath EmptyString) as [E|_]; [now elim Hb |].
    cbn [GoStrings.Join].
    apply (FilepathFacts.Clean_Clean_append basepath "builtin-actors" Hb). }
  split; [| split].
  - unfold NewBundleFetcher. now rewrite Hdir.
  - apply NameFacts.fetcher_dir_clean.
  - intros b w1 version release netw Hnew Hr Hn.
    apply NewBundleFetcher_inv in Hnew as (-> & _ & _).
    unfold bundleFilePath.
    rewrite NameFacts.bundle_path_literal;
      [| apply NameFacts.fetcher_dir_clean | exact Hr
       | apply FilepathFacts.is_elem_long; auto using bundleFile_free, bundleFile_long].
    unfold bundleFile, bundleName. now rewrite !StringFacts.append_assoc.
Qed.

(** * The miner command *)

Section ControllerFacts.

Context {Address : Type} `{EqDecision Address}.

Lemma among_In (addr : Address) (cas : list Address) :
  Miner.among addr cas = true <-> In addr cas.
Proof.
  induction cas as [|ca cas IH]; cbn [Miner.among In]; [split; [discriminate | tauto] |].
  destruct (bool_decide_reflect (addr = ca)) as [->|Hne].
  - split; auto.
  - rewrite IH. split; [auto | intros [E | Hin]; [now elim Hne | exact Hin]].
Qed.

(** X19 -- [isController] holds of an address exactly when it is the owner
    of the miner, its worker, or one of its control addresses; the order
    of the control addresses and their repetitions do not matter. *)
Theorem isController_iff (mi : Miner.MinerInfo) (addr : Address) :
  (Miner.isController mi addr = true <->
   addr = Miner.Owner mi \/ addr = Miner.Worker mi \/ In addr (Miner.ControlAddresses mi)) /\
  (forall cas : list Address,
     (forall a, In a cas <-> In a (Miner.ControlAddresses mi)) ->
     Miner.isController
       (Miner.Build_MinerInfo (Miner.Owner mi) (Miner.Worker mi) cas) addr
     = Miner.isController mi addr).
Proof.
  assert (Hiff : forall m : Miner.MinerInfo,
            Miner.isController m addr = true <->
            addr = Miner.Owner m \/ addr = Miner.Worker m \/
            In addr (Miner.ControlAddresses m)).
  { intros m. unfold Miner.isController.
    destruct (bool_decide_reflect (addr = Miner.Owner m)) as [Ho|Ho]; cbn [orb];
      [tauto |].
    destruct (bool_decide_reflect (addr = Miner.Worker m)) as [Hw|Hw]; [tauto |].
    rewrite among_In. tauto. }
  split; [apply Hiff |].
  intros cas Hcas.
  destruct (Miner.isController mi addr) eqn:E.
  - apply Hiff. apply Hiff in E. cbn [Miner.Owner Miner.Worker Miner.ControlAddresses].
    rewrite Hcas. exact E.
  - destruct (Miner.isController (Miner.Build_MinerInfo _ _ cas) addr) eqn:E'; [| reflexivity].
    apply Hiff in E'. cbn [Miner.Owner Miner.Worker Miner.ControlAddresses] in E'.
    rewrite Hcas in E'. apply Hiff in E'. congruence.
Qed.

End ControllerFacts.

(** * The further statements on concrete worlds *)

Module CoverageWitness.
Import Scenario Cases.

Abbreviation Fetch8 := (Fetch Sha256.Sum256 fetcher 8 "v8.0.0").
Abbreviation base8 := (bundleBasePath fetcher 8 "v8.0.0").
Abbreviation check8 :=
  (check Sha256.Sum256 base8 (bundleFile "mainnet") (bundleHash "mainnet")).

Ltac run := vm_compute; reflexivity.

(** X1 on the digest download into the empty cache. *)
Lemma fetchURL_overwrites_witness :
  exists body,
    origin empty_cache sha_url = Resp StatusOK body false /\
    data <$> (files (snd (fetchURL sha_url sha empty_cache)) !! sha) = Some body.
Proof.
  destruct (fetchURL_overwrites sha_url sha empty_cache
              (snd (fetchURL sha_url sha empty_cache)))
    as (body & Ho & _ & _ & Hd & _); [run |].
  exists body. split; [exact Ho | exact Hd].
Defined.

(** X2 where the release is missing: the answer is 404 and no file is
    written. *)
Lemma fetchURL_failure_writes_nothing_witness :
  exists e, fetchURL sha_url sha no_release = (inl e, with_request sha_url no_release).
Proof.
  refine (fetchURL_failure_writes_nothing sha_url sha no_release _).
  right; left. exists 404%Z, [], false. split; [run | discriminate].
Defined.

(** X4 on the empty cache: the two answers the retrieve step got. *)
Lemma fetch_success_inv_witness :
  exists dbody abody,
    origin empty_cache (bundleUrl "v8.0.0" (bundleHash "mainnet"))
      = Resp StatusOK dbody false /\
    origin empty_cache (bundleUrl "v8.0.0" (bundleFile "mainnet"))
      = Resp StatusOK abody false.
Proof.
  destruct (fetch_success_inv "v8.0.0" base8 "mainnet" empty_cache (retrieved empty_cache))
    as (dbody & abody & Hd & Ha & _); [run |].
  exists dbody, abody. split; [exact Hd | exact Ha].
Defined.

(** X8 on the empty digest file: the mismatch, not a decoding error. *)
Lemma check_empty_digest_witness :
  fst (check8 empty_digest_cache) = inl ErrHashMismatch.
Proof.
  refine (proj1 (proj2 (check_empty_digest Sha256.Sum256 base8 (bundleFile "mainnet")
                          (bundleHash "mainnet") empty_digest_cache [] _
                          (or_introl eq_refl))) abc _ _);
    [run | run | vm_compute; discriminate].
Defined.

(** X9 on the digest file in upper case: the artifact is accepted. *)
Lemma check_digest_case_witness :
  fst (check8 upper_digest_cache) = inr tt.
Proof.
  refine (proj2 (proj1 (check_digest_case Sha256.Sum256 base8 (bundleFile "mainnet")
                          (bundleHash "mainnet") valid_cache upper_digest_cache
                          (digest_file abc "builtin-actors-mainnet.car") _ _ _)) _);
    run.
Defined.

(** X10 on the empty cache: after the call the cache holds a hit. *)
Lemma Fetch_returns_verified_artifact_witness :
  cache_hit Sha256.Sum256 fetcher 8 "v8.0.0" "mainnet" (retrieved empty_cache) = true.
Proof.
  refine (proj2 (proj2 (Fetch_returns_verified_artifact Sha256.Sum256 fetcher 8 "v8.0.0"
                          "mainnet" car empty_cache (retrieved empty_cache) _))).
  run.
Defined.

(** X13 for mainnet with calibrationnet in place. *)
Lemma Fetch_other_network_untouched_witness :
  cache_hit Sha256.Sum256 fetcher 8 "v8.0.0" "calibrationnet"
    (snd (Fetch8 "mainnet" calibnet_cached))
  = cache_hit Sha256.Sum256 fetcher 8 "v8.0.0" "calibrationnet" calibnet_cached.
Proof.
  refine (proj2 (proj2 (proj2
            (Fetch_other_network_untouched Sha256.Sum256 fetcher 8 "v8.0.0"
               "mainnet" "calibrationnet" calibnet_cached _ eq_refl eq_refl)))).
  discriminate.
Defined.


(** X15 where the release is missing: the error is the fetching error and
    its cause names the digest URL. *)
Lemma Fetch_errors_witness :
  exists c,
    Fetch8 "mainnet" no_release
      = (inl (ErrFetchingBundle c), with_request sha_url no_release) /\
    (c = ErrGet sha_url \/ exists st, c = ErrStatus sha_url st).
Proof.
  assert (HF : Fetch8 "mainnet" no_release
               = (inl (ErrFetchingBundle (ErrStatus sha_url 404)),
                  with_request sha_url no_release)) by run.
  destruct (Fetch_errors Sha256.Sum256 fetcher 8 "v8.0.0" "mainnet" no_release _ _ HF)
    as [(E & _) | [(c & E & Hc) | (c & E & _)]]; try discriminate E.
  exists c. injection E as <-. split; [exact HF | right; eauto].
Defined.

(** X16 for the fetcher of [/tmp/cache]: versions 8 and 9 of a release. *)
Lemma bundle_paths_injective_witness :
  bundleFilePath fetcher 8 "v8.0.0" "mainnet" <> bundleHashPath fetcher 9 "v8.0.0" "mainnet" /\
  (bundleFilePath fetcher 8 "v8.0.0" "mainnet" = bundleFilePath fetcher 9 "v8.0.0" "mainnet" ->
   8%Z = 9%Z /\ "v8.0.0" = "v8.0.0" /\ "mainnet" = "mainnet").
Proof.
  destruct (bundle_paths_injective "/tmp/cache" empty_cache empty_cache fetcher 8 9
              "v8.0.0" "v8.0.0" "mainnet" "mainnet")
    as (Hf & _ & Hne); try run.
  split; [exact Hne | exact Hf].
Defined.

End CoverageWitness.
